(** * Buf: a reference-counted, sliceable byte buffer (src/util/native/buf.h)

    A shallow embedding of the C++ class [Buf] and of its private class
    [Buf::Alloc].  Byte memory, the arrays obtained from [new uint8_t[n]],
    the [Alloc] objects and the [std::shared_ptr] control blocks live in an
    explicit heap; every operation that touches them is a computation in a
    state-and-error monad over that heap.  A [Buf] object itself is a value
    (three data members); a method that mutates [*this] returns the new
    value of [*this]. *)

From Stdlib Require Import ZArith Lia List String Ascii.
From Stdlib Require Import Strings.Byte.
From stdpp Require Import base option list gmap.

Local Open Scope Z_scope.

(** ** Machine integers *)

Module Int.
(** [int] is a 32-bit two's complement integer. *)
Definition min_signed : Z := - 2 ^ 31.
Definition max_signed : Z := 2 ^ 31 - 1.

Definition in_range (z : Z) : Prop := min_signed <= z <= max_signed.

(** The value an arithmetic result has once stored back in an [int]. *)
Definition wrap (z : Z) : Z := (z + 2 ^ 31) mod 2 ^ 32 - 2 ^ 31.

(** [int] converted to [size_t] (64 bits), as at the call of [memset],
    [memcpy] and [memcmp]. *)
Definition to_size_t (z : Z) : Z := z mod 2 ^ 64.
End Int.

(** ** The heap *)

(** Addresses of bytes; [NULL] is address 0. *)
Definition ptr : Type := Z.
Definition NULL : ptr := 0.

(** Identities of heap-allocated [Alloc] objects. *)
Definition loc : Type := positive.

(** The data members of [Buf::Alloc]. *)
Module Alloc.
Record t : Type := mk { _data : ptr; _len : Z }.
End Alloc.

Record heap : Type := mkHeap {
  mem : ptr -> byte;          (* byte contents of the address space *)
  arrays : gmap ptr Z;        (* live [new uint8_t[n]] arrays: base -> n *)
  brk : ptr;                  (* lowest address never handed out *)
  objs : gmap loc Alloc.t;    (* live [Alloc] objects *)
  counts : gmap loc Z         (* shared_ptr control blocks: use_count *)
}.

Definition set_mem (f : (ptr -> byte) -> ptr -> byte) (h : heap) : heap :=
  mkHeap (f (mem h)) (arrays h) (brk h) (objs h) (counts h).
Definition set_arrays (f : gmap ptr Z -> gmap ptr Z) (h : heap) : heap :=
  mkHeap (mem h) (f (arrays h)) (brk h) (objs h) (counts h).
Definition set_brk (p : ptr) (h : heap) : heap :=
  mkHeap (mem h) (arrays h) p (objs h) (counts h).
Definition set_objs (f : gmap loc Alloc.t -> gmap loc Alloc.t) (h : heap) : heap :=
  mkHeap (mem h) (arrays h) (brk h) (f (objs h)) (counts h).
Definition set_counts (f : gmap loc Z -> gmap loc Z) (h : heap) : heap :=
  mkHeap (mem h) (arrays h) (brk h) (objs h) (f (counts h)).

(** ** Failures *)

Inductive error : Type :=
  | AssertionFailure      (* [assert] failed: the process aborts *)
  | BadArrayNewLength     (* [new uint8_t[len]] with a negative [len] *)
  | UndefinedBehavior.    (* null or dangling dereference, bad [delete[]] *)

Inductive result (A : Type) : Type :=
  | Ok (a : A)
  | Err (e : error).
Arguments Ok {A} a.
Arguments Err {A} e.

(** ** The monad of heap computations *)

Definition M (A : Type) : Type := heap -> result (A * heap).

Definition ret {A} (a : A) : M A := fun h => Ok (a, h).
Definition bind {A B} (m : M A) (k : A -> M B) : M B :=
  fun h => match m h with
           | Ok (a, h') => k a h'
           | Err e => Err e
           end.
Definition fail {A} (e : error) : M A := fun _ => Err e.
Definition get_heap : M heap := fun h => Ok (h, h).
Definition modify (f : heap -> heap) : M unit := fun h => Ok (tt, f h).

Declare Scope heap_scope.
Delimit Scope heap_scope with heap.
Notation "x <- m ;; k" := (bind m (fun x => k))
  (at level 100, m at next level, right associativity) : heap_scope.
Notation "m ;; k" := (bind m (fun _ => k))
  (at level 100, right associativity) : heap_scope.
Local Open Scope heap_scope.

(** ** Bytes in memory: [new[]], [delete[]], [memset], [memcpy], [memcmp] *)

(** [new uint8_t[len]]: a fresh array, contents indeterminate (whatever
    the memory held).  Every array occupies at least one address, so two
    arrays never share their base.  Where a new array lies is left open
    by the language; here it is taken at the lowest address never handed
    out.  The properties below speak of arrays being live and apart,
    never of their order. *)
Definition new_array (len : Z) : M ptr := fun h =>
  if len <? 0 then Err BadArrayNewLength
  else
    let p := brk h in
    Ok (p, set_brk (p + Z.max 1 len) (set_arrays <[p := len]> h)).

(** [delete[] p]: nothing for a null pointer, otherwise [p] must be the
    base of a live array. *)
Definition delete_array (p : ptr) : M unit := fun h =>
  if p =? NULL then Ok (tt, h)
  else match arrays h !! p with
       | Some _ => Ok (tt, set_arrays (delete p) h)
       | None => Err UndefinedBehavior
       end.

Definition in_block (dst n a : Z) : bool := (dst <=? a) && (a <? dst + n).

Definition memset_bytes (dst : ptr) (c : byte) (n : Z) (m : ptr -> byte)
  : ptr -> byte :=
  fun a => if in_block dst n a then c else m a.

(** The source and the destination do not overlap (a precondition of
    [memcpy]): every byte is read from the memory before the call. *)
Definition memcpy_bytes (dst src : ptr) (n : Z) (m : ptr -> byte)
  : ptr -> byte :=
  fun a => if in_block dst n a then m (src + (a - dst)) else m a.

Definition memset (dst : ptr) (c : byte) (n : Z) : M unit :=
  modify (set_mem (memset_bytes dst c (Int.to_size_t n))).
Definition memcpy (dst src : ptr) (n : Z) : M unit :=
  modify (set_mem (memcpy_bytes dst src (Int.to_size_t n))).

(** [memcmp]: bytes compared as unsigned values, in address order; the
    first difference decides.  Only the sign of the result is specified. *)
Fixpoint memcmp_from (m : ptr -> byte) (p q : ptr) (n : nat) : Z :=
  match n with
  | O => 0
  | S n' =>
      let x := Z.of_N (Byte.to_N (m p)) in
      let y := Z.of_N (Byte.to_N (m q)) in
      if x =? y then memcmp_from m (p + 1) (q + 1) n' else x - y
  end.

Definition memcmp (p q : ptr) (n : Z) (h : heap) : Z :=
  memcmp_from (mem h) p q (Z.to_nat (Int.to_size_t n)).

(** Reading and writing one byte through a reference. *)
Definition load (a : ptr) (h : heap) : byte := mem h a.
Definition store (a : ptr) (v : byte) (h : heap) : heap :=
  set_mem (fun m a' => if a' =? a then v else m a') h.

(** ** [Buf::Alloc] (buf.h:175-226)

    An [Alloc] object is shared through [std::shared_ptr], so it has an
    identity: its methods take [this] as a location of the object store. *)

Definition deref (this : loc) : M Alloc.t := fun h =>
  match objs h !! this with
  | Some o => Ok (o, h)
  | None => Err UndefinedBehavior
  end.

Definition assign_obj (this : loc) (o : Alloc.t) : M unit :=
  modify (set_objs <[this := o]>).

(** The location of the next [new Alloc]. *)
Definition fresh_loc (h : heap) : loc := fresh (dom (objs h) ∪ dom (counts h)).

(** [new Alloc(len)]: [_data(new uint8_t[len]), _len(len)]. *)
Definition Alloc_new (len : Z) : M loc :=
  p <- new_array len ;;
  h <- get_heap ;;
  let this := fresh_loc h in
  assign_obj this (Alloc.mk p len) ;;
  ret this.

(** [new Alloc(data, len)], for [void*] and [const void*] alike: the
    memory is recorded, nothing is allocated. *)
Definition Alloc_new_wrap (data : ptr) (len : Z) : M loc :=
  h <- get_heap ;;
  let this := fresh_loc h in
  assign_obj this (Alloc.mk data len) ;;
  ret this.

(** [new Alloc(other)]: a fresh array with a copy of [other]'s bytes. *)
Definition Alloc_new_copy (other : loc) : M loc :=
  o <- deref other ;;
  p <- new_array (Alloc._len o) ;;
  h <- get_heap ;;
  let this := fresh_loc h in
  assign_obj this (Alloc.mk p (Alloc._len o)) ;;
  memcpy p (Alloc._data o) (Alloc._len o) ;;
  ret this.

(** [~Alloc()]: [delete[] _data]. *)
Definition Alloc_dtor (this : loc) : M unit :=
  o <- deref this ;;
  delete_array (Alloc._data o).

(** [delete p] for an [Alloc* p]: the destructor runs, then the object is
    gone. *)
Definition Alloc_delete (this : loc) : M unit :=
  Alloc_dtor this ;;
  modify (set_objs (delete this)).

Definition Alloc_data (this : loc) : M ptr :=
  o <- deref this ;; ret (Alloc._data o).

Definition Alloc_length (this : loc) : M Z :=
  o <- deref this ;; ret (Alloc._len o).

(** [detach()]: [data = _data; _data = NULL; _len = 0; return data]. *)
Definition Alloc_detach (this : loc) : M ptr :=
  o <- deref this ;;
  let data := Alloc._data o in
  assign_obj this (Alloc.mk NULL 0) ;;
  ret data.

(** ** [std::shared_ptr<Alloc>]

    A shared pointer is empty ([None]) or holds the location of the
    managed object; the control block of that object holds its use
    count. *)

Definition shared_ptr : Type := option loc.

(** [shared_ptr(p)] for a pointer from [new]: a control block with use
    count 1. *)
Definition sp_make (p : loc) : M shared_ptr :=
  modify (set_counts <[p := 1]>) ;;
  ret (Some p).

Definition use_count (sp : shared_ptr) (h : heap) : Z :=
  match sp with
  | None => 0
  | Some p => default 0 (counts h !! p)
  end.

(** [unique()] is [use_count() == 1]. *)
Definition sp_unique (sp : shared_ptr) (h : heap) : bool :=
  use_count sp h =? 1.

(** Copy construction: one more owner. *)
Definition sp_copy (sp : shared_ptr) : M shared_ptr :=
  match sp with
  | None => ret None
  | Some p => fun h =>
      match counts h !! p with
      | Some c => Ok (Some p, set_counts <[p := c + 1]> h)
      | None => Err UndefinedBehavior
      end
  end.

(** Destruction: one owner less; the last one deletes the object. *)
Definition sp_release (sp : shared_ptr) : M unit :=
  match sp with
  | None => ret tt
  | Some p => fun h =>
      match counts h !! p with
      | Some c =>
          if c =? 1
          then (modify (set_counts (delete p)) ;; Alloc_delete p) h
          else Ok (tt, set_counts <[p := c - 1]> h)
      | None => Err UndefinedBehavior
      end
  end.

(** Copy assignment [this = other]: a copy of [other] is made, then the
    former value of [this] is released. *)
Definition sp_assign (this other : shared_ptr) : M shared_ptr :=
  sp <- sp_copy other ;;
  sp_release this ;;
  ret sp.

(** [operator->]: the managed object; undefined on an empty pointer. *)
Definition sp_get (sp : shared_ptr) : M loc :=
  match sp with
  | Some p => ret p
  | None => fail UndefinedBehavior
  end.

(** ** The hexadecimal table *)

(** The sixteen lowercase hexadecimal digits, by value. *)
Definition hex_digits : list ascii :=
  list_ascii_of_string "0123456789abcdef".

Definition hex_digit (n : N) : ascii :=
  nth (N.to_nat n) hex_digits "f"%char.

(** Modelled from the spec: the table [BYTE_TO_HEX] is declared at
    buf.h:235 and defined outside the sources at hand.  The spec has
    [hex] render lowercase hexadecimal, two characters per byte, by
    direct lookup per byte value: entry [b] is the two lowercase
    hexadecimal digits of [b], the high one first. *)
Definition BYTE_TO_HEX (b : byte) : string :=
  let n := Byte.to_N b in
  String (hex_digit (n / 16)) (String (hex_digit (n mod 16)) EmptyString).

(** ** [Buf] (buf.h:9-240) *)

Module Buf.

Record t : Type := mk {
  _alloc : shared_ptr;
  _data : ptr;
  _len : Z
}.

(** [Buf()] *)
Definition ctor_default : t := mk None NULL 0.

(** [Buf(int len)] *)
Definition ctor_len (len : Z) : M t :=
  a <- Alloc_new len ;;
  sp <- sp_make a ;;
  d <- Alloc_data a ;;
  n <- Alloc_length a ;;
  ret (mk sp d n).

(** [Buf(int len, uint8_t fill)] *)
Definition ctor_fill (len : Z) (fill : byte) : M t :=
  this <- ctor_len len ;;
  memset (_data this) fill (_len this) ;;
  ret this.

(** [Buf(void* data, int len)] and [Buf(const void* data, int len)] *)
Definition ctor_wrap (data : ptr) (len : Z) : t := mk None data len.

(** [init(other)]: the three members are assigned from [other]; of the
    former state of [*this] only [_alloc] is read (its owner is
    released). *)
Definition init (this other : t) : M t :=
  sp <- sp_assign (_alloc this) (_alloc other) ;;
  ret (mk sp (_data other) (_len other)).

(** [slice(offset, len)] *)
Definition slice (offset len : Z) (this : t) : t :=
  (* skip to offset *)
  let offset := if offset >? _len this then _len this else offset in
  let offset := if offset <? 0 then 0 else offset in
  let data' := _data this + offset in
  let len' := Int.wrap (_len this - offset) in
  (* truncate to length *)
  let len' := if len' >? len then len else len' in
  let len' := if len' <? 0 then 0 else len' in
  mk (_alloc this) data' len'.

(** [Buf(const Buf& other)].  [_alloc] starts empty; [_data] and [_len]
    start indeterminate and [init] overwrites them without reading them. *)
Definition ctor_copy (other : t) : M t :=
  init ctor_default other.

(** [Buf(const Buf& other, int offset, int len)] *)
Definition ctor_slice (other : t) (offset len : Z) : M t :=
  this <- init ctor_default other ;;
  ret (slice offset len this).

(** [~Buf()]: the member [_alloc] is destroyed. *)
Definition dtor (this : t) : M unit := sp_release (_alloc this).

(** [operator=(other)]; the value is that of [*this] after the call. *)
Definition assign (this other : t) : M t := init this other.

Definition data (this : t) : ptr := _data this.
Definition length (this : t) : Z := _len this.

(** [operator[](i)]: a reference to the byte at [_data + i]. *)
Definition index (this : t) (i : Z) : ptr := _data this + i.

(** The loop of the concatenating constructor, one source per turn:
    [begin .. end] is the list [srcs]. *)
Fixpoint concat_loop (dst : ptr) (len : Z) (srcs : list t) {struct srcs}
  : M unit :=
  if len >? 0 then
    match srcs with
    | [] => fail AssertionFailure               (* assert(begin != end) *)
    | src :: srcs' =>
        let now := Z.min len (length src) in
        memcpy dst (data src) now ;;
        concat_loop (dst + now) (Int.wrap (len - now)) srcs'
    end
  else ret tt.

(** [Buf(int len, Iter begin, Iter end)] *)
Definition ctor_concat (len : Z) (srcs : list t) : M t :=
  this <- ctor_len len ;;
  concat_loop (_data this) len srcs ;;
  ret this.

(** [reset()] *)
Definition reset (this : t) : M t :=
  a <- sp_get (_alloc this) ;;
  d <- Alloc_data a ;;
  a' <- sp_get (_alloc this) ;;
  n <- Alloc_length a' ;;
  ret (mk (_alloc this) d n).

(** [detach_alloc()]: the value is the pointer returned, with [*this]
    as the call leaves it. *)
Definition detach_alloc (this : t) : M (ptr * t) :=
  a <- sp_get (_alloc this) ;;
  p <- Alloc_detach a ;;
  ret (p, this).

(** [unique_alloc()] *)
Definition unique_alloc (this : t) (h : heap) : bool :=
  sp_unique (_alloc this) h.

(** [hex()]: [for (i = 0; i < _len; ++i) str += BYTE_TO_HEX[_data[i]]] *)
Definition hex (this : t) (h : heap) : string :=
  foldl (fun str i => String.append str (BYTE_TO_HEX (load (index this i) h)))
        EmptyString (seqZ 0 (_len this)).

(** [same(buf)] *)
Definition same (this buf : t) (h : heap) : bool :=
  (_len this =? _len buf) && (0 =? memcmp (_data this) (_data buf) (_len this) h).

End Buf.

(** The bytes a buffer shows: those at [_data], [_data + 1], ... up to
    its length. *)
Definition view (b : Buf.t) (h : heap) : list byte :=
  (fun i => load (Buf.index b i) h) <$> seqZ 0 (Buf.length b).

(** A heap with nothing allocated and every byte zero. *)
Definition empty_heap : heap := mkHeap (fun _ => x00) ∅ 1 ∅ ∅.

(** Bytes laid down from an address on, as a caller would prepare memory
    before wrapping it in a buffer. *)
Fixpoint poke (a : ptr) (bs : list byte) (h : heap) : heap :=
  match bs with
  | [] => h
  | b :: bs' => poke (a + 1) bs' (store a b h)
  end.

(** Running a computation for its value only. *)
Definition eval {A} (m : M A) (h : heap) : result A :=
  match m h with
  | Ok (a, _) => Ok a
  | Err e => Err e
  end.

(** [offset] clamped into [[0, L]], in the order [slice] does it: first
    from above, then from below (so the result is 0 when [L < 0]). *)
Definition clamp (offset L : Z) : Z := Z.max 0 (Z.min offset L).

(** A run of [slice] calls, first call first. *)
Definition slice_all (slices : list (Z * Z)) (this : Buf.t) : Buf.t :=
  foldl (fun b s => Buf.slice (fst s) (snd s) b) this slices.

(** An owner the heap knows: empty, or with a live control block, a
    live [Alloc] and, unless detached, a live array behind it. *)
Definition live_owner (h : heap) (sp : shared_ptr) : Prop :=
  match sp with
  | None => True
  | Some a =>
      exists c o,
        counts h !! a = Some c /\ 1 <= c /\ objs h !! a = Some o /\
        (Alloc._data o = NULL \/ is_Some (arrays h !! Alloc._data o))
  end.

(** [Buf(3)] run in the empty heap: the buffer and the heap it leaves. *)
Definition example_buf : Buf.t := Buf.mk (Some 1%positive) 1 3.
Definition example_heap : heap :=
  set_counts <[1%positive := 1]>
    (set_objs <[1%positive := Alloc.mk 1 3]>
       (set_brk 4 (set_arrays <[1 := 3]> empty_heap))).

(** Two characters per byte, in order, nothing in between. *)
Definition hex_of_bytes (bs : list byte) : string :=
  foldr (fun b s => String.append (BYTE_TO_HEX b) s) EmptyString bs.

(** The value of a lowercase hexadecimal digit: its place among
    [hex_digits]. *)
Fixpoint place_from (i : N) (c : ascii) (ds : list ascii) : option N :=
  match ds with
  | [] => None
  | d :: ds' => if Ascii.eqb c d then Some i else place_from (N.succ i) c ds'
  end.

Definition hex_value (c : ascii) : option N := place_from 0 c hex_digits.

Definition is_lower_hex (c : ascii) : Prop := is_Some (hex_value c).

(** Reading a string back, two lowercase hexadecimal digits per byte. *)
Fixpoint unhex (s : string) : option (list byte) :=
  match s with
  | EmptyString => Some []
  | String c1 (String c2 s') =>
      match hex_value c1, hex_value c2, unhex s' with
      | Some hi, Some lo, Some bs =>
          match Byte.of_N (hi * 16 + lo) with
          | Some b => Some (b :: bs)
          | None => None
          end
      | _, _, _ => None
      end
  | String _ EmptyString => None
  end.

(** The example buffer holding the bytes 0x00, 0xFF, 0x10. *)
Definition hex_example_heap : heap := poke 1 [x00; xff; x10] example_heap.

(** The bytes the sources of a concatenation offer, in iteration
    order, and how many they are. *)
Definition source_bytes (srcs : list Buf.t) (h : heap) : list byte :=
  concat ((fun s => view s h) <$> srcs).

Definition total_length (srcs : list Buf.t) : Z :=
  foldr (fun s acc => Buf.length s + acc) 0 srcs.

(** A source a caller may pass in heap [h]: a length that is a
    non-negative [int], over memory handed out before the call. *)
Definition valid_source (h : heap) (s : Buf.t) : Prop :=
  0 <= Buf.length s /\ Int.in_range (Buf.length s) /\
  Buf.data s + Buf.length s <= brk h.

(** The concatenating constructor, then the bytes of the new buffer. *)
Definition concat_view (len : Z) (srcs : list Buf.t) : M (list byte) :=
  this <- Buf.ctor_concat len srcs ;;
  h <- get_heap ;;
  ret (view this h).

(** Caller memory holding [0x01, 0x02] at address 16 and [0x03] at
    address 32, and the two buffers wrapping them. *)
Definition concat_heap : heap :=
  set_brk 64 (poke 32 [x03] (poke 16 [x01; x02] empty_heap)).
Definition concat_srcs : list Buf.t :=
  [Buf.ctor_wrap 16 2; Buf.ctor_wrap 32 1].

(** A heap as the operations of [Buf] build it.  Arrays are non-null,
    inside the addresses handed out and apart from one another; control
    blocks and [Alloc] objects go together, with a use count of at least
    1; an [Alloc] that was not detached holds a live array of its
    length, and no two of them hold the same array. *)
Record heap_wf (h : heap) : Prop := {
  wf_brk : 0 < brk h;
  wf_arrays : forall p n,
    arrays h !! p = Some n -> 0 < p /\ 0 <= n /\ p + Z.max 1 n <= brk h;
  wf_disjoint : forall p n p' n',
    arrays h !! p = Some n -> arrays h !! p' = Some n' -> p <> p' ->
    p + Z.max 1 n <= p' \/ p' + Z.max 1 n' <= p;
  wf_counts : forall a, is_Some (counts h !! a) <-> is_Some (objs h !! a);
  wf_count_pos : forall a c, counts h !! a = Some c -> 1 <= c;
  wf_obj : forall a o,
    objs h !! a = Some o ->
    Alloc._data o = NULL \/ arrays h !! Alloc._data o = Some (Alloc._len o);
  wf_own : forall a a' o o',
    objs h !! a = Some o -> objs h !! a' = Some o' ->
    Alloc._data o <> NULL -> Alloc._data o = Alloc._data o' -> a = a'
}.

(** A shared pointer whose control block, if any, is in the heap. *)
Definition owned (h : heap) (sp : shared_ptr) : Prop :=
  match sp with
  | None => True
  | Some a => is_Some (counts h !! a)
  end.


(** * Facts *)

(** ** Machine integers *)

Lemma Int_wrap_id z : Int.in_range z -> Int.wrap z = z.
Proof.
  unfold Int.in_range, Int.wrap, Int.min_signed, Int.max_signed. intros Hz.
  rewrite Z.mod_small; lia.
Qed.

Lemma Int_to_size_t_id z : Int.in_range z -> 0 <= z -> Int.to_size_t z = z.
Proof.
  unfold Int.in_range, Int.to_size_t, Int.max_signed. intros Hz Hz0.
  apply Z.mod_small. lia.
Qed.

(** ** [slice] *)

Lemma clamp_bounds offset L : 0 <= L -> 0 <= clamp offset L <= L.
Proof. unfold clamp. lia. Qed.

Lemma clamp_neg_len offset L : L < 0 -> clamp offset L = 0.
Proof. unfold clamp. lia. Qed.

(** The offset [slice] skips to is [clamp offset _len]. *)
Lemma slice_offset offset L :
  (let o := if offset >? L then L else offset in if o <? 0 then 0 else o)
  = clamp offset L.
Proof.
  unfold clamp. cbv zeta.
  destruct (Z.gtb_spec offset L);
    match goal with |- context [Z.ltb ?a ?b] => destruct (Z.ltb_spec a b) end; lia.
Qed.

(** [slice] in closed form; the subtraction never overflows. *)
Lemma slice_closed_form offset len (this : Buf.t) :
  Int.in_range (Buf._len this) ->
  Buf.slice offset len this =
  Buf.mk (Buf._alloc this)
         (Buf._data this + clamp offset (Buf._len this))
         (Z.max 0 (Z.min len (Buf._len this - clamp offset (Buf._len this)))).
Proof.
  intros HL. unfold Buf.slice. cbv zeta.
  pose proof (slice_offset offset (Buf._len this)) as Ho. cbv zeta in Ho.
  rewrite Ho. clear Ho.
  set (c := clamp offset (Buf._len this)).
  assert (Hc : Int.in_range (Buf._len this - c)).
  { destruct (Z_lt_le_dec (Buf._len this) 0) as [Hneg|Hpos].
    - subst c. rewrite clamp_neg_len by assumption. now rewrite Z.sub_0_r.
    - pose proof (clamp_bounds offset _ Hpos). fold c in H.
      unfold Int.in_range, Int.min_signed, Int.max_signed in *. lia. }
  rewrite (Int_wrap_id _ Hc). f_equal.
  destruct (Z.gtb_spec (Buf._len this - c) len);
    match goal with |- context [Z.ltb ?a ?b] => destruct (Z.ltb_spec a b) end; lia.
Qed.

Lemma slice_alloc offset len this :
  Buf._alloc (Buf.slice offset len this) = Buf._alloc this.
Proof. reflexivity. Qed.

Lemma slice_length_nonneg offset len this :
  0 <= Buf.length (Buf.slice offset len this).
Proof.
  unfold Buf.length, Buf.slice. cbn.
  repeat match goal with |- context [Z.ltb ?a ?b] => destruct (Z.ltb_spec a b) end; lia.
Qed.

(** C2, as stated, at a negative requested length: a view of 4 bytes
    sliced with [len = -1] has length 0, above [min (-1) (4 - 0)]. *)
Lemma slice_negative_len_exceeds_min :
  ~ (Buf.length (Buf.slice 0 (-1) (Buf.ctor_wrap 100 4))
     <= Z.min (-1) (4 - clamp 0 4)).
Proof. vm_compute. intros H. apply H. reflexivity. Qed.

(** C2 (amended): [slice] is a total function; an offset below 0 behaves
    as offset 0; an offset above the length [L] yields length 0; the
    resulting length is [max 0 (min len (L - clamp offset))], which is
    at most [min len (L - clamp offset)] whenever [len] and [L] are not
    negative, and is 0 for a negative [len]. *)
Theorem slice_clamps (this : Buf.t) (offset len : Z) :
  Int.in_range (Buf.length this) ->
  let L := Buf.length this in
  let r := Buf.slice offset len this in
  (offset < 0 -> r = Buf.slice 0 len this) /\
  (offset > L -> Buf.length r = 0) /\
  Buf.length r = Z.max 0 (Z.min len (L - clamp offset L)) /\
  (0 <= len -> 0 <= L -> Buf.length r <= Z.min len (L - clamp offset L)) /\
  (len < 0 -> Buf.length r = 0) /\
  Buf.data r = Buf.data this + clamp offset L /\
  Buf._alloc r = Buf._alloc this /\
  0 <= Buf.length r /\ Int.in_range (Buf.length r).
Proof.
  intros HL L r. subst r. unfold Buf.length in *. fold L in HL.
  rewrite !slice_closed_form by assumption. fold L. cbn.
  unfold Buf.data; cbn.
  assert (Hr : 0 <= Z.max 0 (Z.min len (L - clamp offset L)) <= Z.max 0 L).
  { unfold clamp. lia. }
  repeat split; try (unfold clamp; lia).
  - intros Hneg. f_equal; unfold clamp; lia.
  - unfold Int.in_range, Int.min_signed, Int.max_signed in *. lia.
  - unfold Int.in_range, Int.min_signed, Int.max_signed in *. lia.
Qed.

Lemma slice_clamps_witness :
  Buf.length (Buf.slice 7 2 (Buf.ctor_wrap 100 5)) = 0 /\
  Buf.length (Buf.slice (-3) 2 (Buf.ctor_wrap 100 5))
  = Z.max 0 (Z.min 2 (5 - clamp (-3) 5)).
Proof.
  assert (H : Int.in_range (Buf.length (Buf.ctor_wrap 100 5)))
    by (vm_compute; split; discriminate).
  split.
  - destruct (slice_clamps (Buf.ctor_wrap 100 5) 7 2 H) as (_ & Habove & _).
    apply Habove. reflexivity.
  - destruct (slice_clamps (Buf.ctor_wrap 100 5) (-3) 2 H) as (_ & _ & Hlen & _).
    exact Hlen.
Defined.

(** ** [Alloc] *)

Lemma deref_live h this o :
  objs h !! this = Some o -> deref this h = Ok (o, h).
Proof. intros H. unfold deref. now rewrite H. Qed.

(** One step of a heap computation after the other. *)
Ltac heap_simpl :=
  repeat first
    [ progress (unfold bind, ret, modify, fail, get_heap; cbn)
    | rewrite lookup_insert_eq
    | match goal with
      | H : objs ?h !! ?l = Some _ |- context [deref ?l ?h] =>
          rewrite (deref_live _ _ _ H)
      | H : counts ?h !! ?l = Some _ |- context [counts ?h !! ?l] =>
          rewrite H
      end ].

Lemma deref_assigned h this o :
  deref this (set_objs <[this := o]> h) = Ok (o, set_objs <[this := o]> h).
Proof. apply deref_live. cbn. apply lookup_insert_eq. Qed.

(** Without a detach, destroying an [Alloc] frees its array. *)
Lemma Alloc_dtor_frees h this p n :
  objs h !! this = Some (Alloc.mk p n) -> p <> NULL ->
  is_Some (arrays h !! p) ->
  exists h', Alloc_dtor this h = Ok (tt, h') /\ arrays h' !! p = None.
Proof.
  intros Hobj Hp [sz Hsz]. unfold Alloc_dtor, bind.
  rewrite (deref_live _ _ _ Hobj). cbn. unfold delete_array.
  destruct (Z.eqb_spec p NULL) as [->|_]; [contradiction|].
  rewrite Hsz. eexists. split; [reflexivity|]. cbn. apply lookup_delete_eq.
Qed.

(** C4: [detach] on an [Alloc] holding pointer [p] and length [n] returns
    [p]; afterwards the [Alloc] reports null data and length 0; the call
    leaves the byte memory and the set of live arrays as they were (the
    bytes at [p] are neither freed nor modified); destroying the [Alloc]
    after the detach frees nothing. *)
Theorem Alloc_detach_spec (h : heap) (this : loc) (p : ptr) (n : Z) :
  objs h !! this = Some (Alloc.mk p n) ->
  exists h',
    Alloc_detach this h = Ok (p, h') /\
    Alloc_data this h' = Ok (NULL, h') /\
    Alloc_length this h' = Ok (0, h') /\
    h' = set_objs <[this := Alloc.mk NULL 0]> h /\
    mem h' = mem h /\ arrays h' = arrays h /\
    (forall i, load (p + i) h' = load (p + i) h) /\
    Alloc_dtor this h' = Ok (tt, h') /\
    (exists h'', Alloc_delete this h' = Ok (tt, h'') /\
                 mem h'' = mem h /\ arrays h'' = arrays h).
Proof.
  intros Hobj. exists (set_objs <[this := Alloc.mk NULL 0]> h).
  assert (Hdtor : Alloc_dtor this (set_objs <[this := Alloc.mk NULL 0]> h)
                  = Ok (tt, set_objs <[this := Alloc.mk NULL 0]> h)).
  { unfold Alloc_dtor, bind. now rewrite deref_assigned. }
  repeat split.
  - unfold Alloc_detach, bind. now rewrite (deref_live _ _ _ Hobj).
  - unfold Alloc_data, bind. now rewrite deref_assigned.
  - unfold Alloc_length, bind. now rewrite deref_assigned.
  - exact Hdtor.
  - eexists. unfold Alloc_delete, bind. rewrite Hdtor. cbn.
    split; [reflexivity|]. split; reflexivity.
Qed.

Lemma Alloc_detach_spec_witness :
  exists h',
    Alloc_detach 1%positive example_heap = Ok (1, h') /\
    Alloc_data 1%positive h' = Ok (NULL, h') /\
    Alloc_length 1%positive h' = Ok (0, h') /\
    arrays h' !! 1 = Some 3 /\
    Alloc_dtor 1%positive h' = Ok (tt, h').
Proof.
  destruct (Alloc_detach_spec example_heap 1%positive 1 3)
    as (h' & Hd & Hdata & Hlen & _ & _ & Harr & _ & Hdtor & _).
  - reflexivity.
  - exists h'. repeat split; try assumption. now rewrite Harr.
Defined.

(** ** Construction *)

(** The heap after [Buf(len)] run in [h]. *)
Lemma ctor_len_spec (h : heap) (len : Z) :
  0 <= len ->
  let a := fresh_loc h in
  Buf.ctor_len len h =
  Ok (Buf.mk (Some a) (brk h) len,
      set_counts <[a := 1]>
        (set_objs <[a := Alloc.mk (brk h) len]>
           (set_brk (brk h + Z.max 1 len) (set_arrays <[brk h := len]> h)))).
Proof.
  intros Hlen a. unfold Buf.ctor_len, Alloc_new, bind, new_array.
  destruct (Z.ltb_spec len 0) as [?|_]; [lia|]. cbn.
  unfold Alloc_data, Alloc_length, bind, deref, ret. cbn.
  change (fresh_loc _) with a. rewrite lookup_insert_eq. cbn.
  rewrite lookup_insert_eq. reflexivity.
Qed.

Lemma ctor_len_negative (h : heap) (len : Z) :
  len < 0 -> Buf.ctor_len len h = Err BadArrayNewLength.
Proof.
  intros Hlen. unfold Buf.ctor_len, Alloc_new, bind, new_array.
  destruct (Z.ltb_spec len 0) as [_|?]; [reflexivity|lia].
Qed.

(** Of the former state of [*this], [init] reads [_alloc] only. *)
Lemma init_ignores_view sp d n d' n' other h :
  Buf.init (Buf.mk sp d n) other h = Buf.init (Buf.mk sp d' n') other h.
Proof. reflexivity. Qed.

(** Copy construction from a buffer whose control block is live. *)
Lemma ctor_copy_owning (h : heap) (other : Buf.t) (a : loc) (c : Z) :
  Buf._alloc other = Some a -> counts h !! a = Some c ->
  Buf.ctor_copy other h = Ok (other, set_counts <[a := c + 1]> h).
Proof.
  intros Ha Hc. destruct other as [sp d n]. cbn in Ha. subst sp.
  unfold Buf.ctor_copy, Buf.init, sp_assign, bind. cbn. now rewrite Hc.
Qed.

Lemma ctor_copy_borrowing (h : heap) (other : Buf.t) :
  Buf._alloc other = None -> Buf.ctor_copy other h = Ok (other, h).
Proof.
  intros Ha. destruct other as [sp d n]. cbn in Ha. subst sp. reflexivity.
Qed.

(** ** [detach_alloc] *)

(** C10: [detach_alloc] on an owning buffer changes the fields of the
    underlying [Alloc] only (data to null, length to 0); the calling
    buffer keeps its data pointer and its length, and nothing else in
    the heap changes. *)
Theorem detach_alloc_frame (h : heap) (this : Buf.t) (a : loc) (o : Alloc.t) :
  Buf._alloc this = Some a -> objs h !! a = Some o ->
  exists this' h',
    Buf.detach_alloc this h = Ok ((Alloc._data o, this'), h') /\
    Buf.data this' = Buf.data this /\
    Buf.length this' = Buf.length this /\
    Buf._alloc this' = Buf._alloc this /\
    objs h' !! a = Some (Alloc.mk NULL 0) /\
    (forall a', a' <> a -> objs h' !! a' = objs h !! a') /\
    mem h' = mem h /\ arrays h' = arrays h /\
    brk h' = brk h /\ counts h' = counts h.
Proof.
  intros Ha Hobj. exists this, (set_objs <[a := Alloc.mk NULL 0]> h).
  repeat split.
  - unfold Buf.detach_alloc, bind. rewrite Ha. cbn.
    unfold Alloc_detach, bind. now rewrite (deref_live _ _ _ Hobj).
  - cbn. apply lookup_insert_eq.
  - intros a' Hne. cbn. now apply lookup_insert_ne.
Qed.

(** ** [reset] *)

Lemma reset_owning (h : heap) (this : Buf.t) (a : loc) (o : Alloc.t) :
  Buf._alloc this = Some a -> objs h !! a = Some o ->
  Buf.reset this h = Ok (Buf.mk (Some a) (Alloc._data o) (Alloc._len o), h).
Proof.
  intros Ha Hobj. unfold Buf.reset. rewrite Ha.
  unfold Alloc_data, Alloc_length. heap_simpl. reflexivity.
Qed.

Lemma reset_borrowing (h : heap) (this : Buf.t) :
  Buf._alloc this = None -> Buf.reset this h = Err UndefinedBehavior.
Proof. intros Ha. unfold Buf.reset, bind. now rewrite Ha. Qed.

Lemma slices_alloc (slices : list (Z * Z)) (this : Buf.t) :
  Buf._alloc (slice_all slices this) = Buf._alloc this.
Proof.
  revert this. induction slices as [|[offset len] slices IH]; intros this.
  - reflexivity.
  - change (slice_all ((offset, len) :: slices) this)
      with (slice_all slices (Buf.slice offset len this)).
    rewrite IH. apply slice_alloc.
Qed.

(** C6: whatever [slice] calls came before, [reset] on an owning buffer
    sets the view to the data pointer and length the shared [Alloc]
    records now; slicing and then resetting gives the same view as
    resetting alone. *)
Theorem reset_after_slices (h : heap) (this : Buf.t) (a : loc) (o : Alloc.t)
    (slices : list (Z * Z)) :
  Buf._alloc this = Some a -> objs h !! a = Some o ->
  Buf.reset (slice_all slices this) h
  = Ok (Buf.mk (Some a) (Alloc._data o) (Alloc._len o), h) /\
  Buf.reset (slice_all slices this) h = Buf.reset this h.
Proof.
  intros Ha Hobj.
  assert (Hs : Buf._alloc (slice_all slices this) = Some a)
    by (now rewrite slices_alloc).
  rewrite (reset_owning _ _ _ _ Hs Hobj), (reset_owning _ _ _ _ Ha Hobj).
  split; reflexivity.
Qed.

Lemma example_buf_fresh :
  Buf.ctor_len 3 empty_heap = Ok (example_buf, example_heap).
Proof. reflexivity. Qed.

Lemma detach_alloc_frame_witness :
  exists this' h',
    Buf.detach_alloc example_buf example_heap = Ok ((1, this'), h') /\
    Buf.length this' = 3 /\ objs h' !! 1%positive = Some (Alloc.mk NULL 0).
Proof.
  destruct (detach_alloc_frame example_heap example_buf 1%positive (Alloc.mk 1 3))
    as (this' & h' & Hrun & _ & Hlen & _ & Hobj & _).
  - reflexivity.
  - reflexivity.
  - exists this', h'. split; [exact Hrun|]. split; [exact Hlen|exact Hobj].
Defined.

Lemma reset_after_slices_witness :
  Buf.reset (slice_all [(1, 1); (5, 0)] example_buf) example_heap
  = Ok (example_buf, example_heap).
Proof.
  destruct (reset_after_slices example_heap example_buf 1%positive
              (Alloc.mk 1 3) [(1, 1); (5, 0)]) as [Hreset _].
  - reflexivity.
  - reflexivity.
  - exact Hreset.
Defined.

(** ** [unique_alloc] *)

Lemma unique_alloc_borrowing (this : Buf.t) (h : heap) :
  Buf._alloc this = None -> Buf.unique_alloc this h = false.
Proof. intros Ha. unfold Buf.unique_alloc. now rewrite Ha. Qed.

(** C7: [unique_alloc] is true on a freshly constructed owning buffer,
    false on it and on its copy once it has been copy-constructed (and
    true again when the copy has been destroyed), and false on every
    borrowing buffer. *)
Theorem unique_alloc_spec (h : heap) (len : Z) :
  0 <= len ->
  exists this h1,
    Buf.ctor_len len h = Ok (this, h1) /\
    Buf.unique_alloc this h1 = true /\
    (exists copy h2,
        Buf.ctor_copy this h1 = Ok (copy, h2) /\
        Buf.unique_alloc this h2 = false /\
        Buf.unique_alloc copy h2 = false /\
        exists h3, Buf.dtor copy h2 = Ok (tt, h3) /\
                   Buf.unique_alloc this h3 = true) /\
    (forall (data : ptr) (n : Z) (h' : heap),
        Buf.unique_alloc (Buf.ctor_wrap data n) h' = false) /\
    (forall h' : heap, Buf.unique_alloc Buf.ctor_default h' = false).
Proof.
  intros Hlen. pose proof (ctor_len_spec h len Hlen) as Hctor. cbv zeta in Hctor.
  set (a := fresh_loc h) in *.
  eexists _, _. split; [exact Hctor|]. split; [|split; [|split]].
  - unfold Buf.unique_alloc, sp_unique, use_count. cbn.
    now rewrite lookup_insert_eq.
  - eexists _, _. split.
    + apply (ctor_copy_owning _ _ a 1); [reflexivity|]. cbn.
      apply lookup_insert_eq.
    + unfold Buf.unique_alloc, sp_unique, use_count. cbn.
      rewrite !lookup_insert_eq. cbn. split; [reflexivity|]. split; [reflexivity|].
      eexists. split; [reflexivity|]. cbn. now rewrite lookup_insert_eq.
  - intros data n h'. now apply unique_alloc_borrowing.
  - intros h'. now apply unique_alloc_borrowing.
Qed.

Lemma unique_alloc_spec_witness :
  exists this h1,
    Buf.ctor_len 3 empty_heap = Ok (this, h1) /\
    Buf.unique_alloc this h1 = true.
Proof.
  destruct (unique_alloc_spec empty_heap 3) as (this & h1 & Hctor & Huniq & _).
  - lia.
  - exists this, h1. split; assumption.
Defined.

(** ** Assignment and copy construction *)

Lemma sp_release_live (h : heap) (sp : shared_ptr) :
  live_owner h sp -> exists h', sp_release sp h = Ok (tt, h').
Proof.
  destruct sp as [a|]; cbn; [|intros _; now eexists].
  intros (c & o & Hc & _ & Hobj & Harr). rewrite Hc.
  destruct (c =? 1); [|now eexists].
  unfold Alloc_delete, Alloc_dtor, bind, modify, deref. cbn. rewrite Hobj.
  unfold delete_array. cbn.
  destruct (Z.eqb_spec (Alloc._data o) NULL) as [_|Hnn]; [now eexists|].
  destruct Harr as [Hnull|[sz Hsz]]; [contradiction|].
  rewrite Hsz. now eexists.
Qed.

Lemma live_owner_one_more (h : heap) (sp : shared_ptr) (b : loc) (c : Z) :
  live_owner h sp -> counts h !! b = Some c -> 1 <= c ->
  live_owner (set_counts <[b := c + 1]> h) sp.
Proof.
  destruct sp as [a|]; cbn; [|trivial].
  intros (c' & o & Hc' & Hge & Hobj & Harr) Hb Hc.
  destruct (decide (b = a)) as [->|Hne].
  - exists (c + 1), o. rewrite lookup_insert_eq. repeat split; auto; lia.
  - exists c', o. rewrite lookup_insert_ne by assumption. repeat split; auto.
Qed.

(** [init] is: copy [other]'s owner, release the former owner of
    [*this], take [other]'s view. *)
Lemma init_unfold (this other : Buf.t) (h : heap) :
  Buf.init this other h =
  match sp_copy (Buf._alloc other) h with
  | Ok (sp, h2) =>
      match sp_release (Buf._alloc this) h2 with
      | Ok (_, h1) => Ok (Buf.mk sp (Buf._data other) (Buf._len other), h1)
      | Err e => Err e
      end
  | Err e => Err e
  end.
Proof.
  unfold Buf.init, sp_assign, bind, ret.
  destruct (sp_copy (Buf._alloc other) h) as [[sp h2]|e]; [|reflexivity].
  destruct (sp_release (Buf._alloc this) h2) as [[[] h1]|e]; reflexivity.
Qed.

Lemma sp_copy_live (h : heap) (sp : shared_ptr) :
  live_owner h sp ->
  exists h2, sp_copy sp h = Ok (sp, h2) /\
             forall sp', live_owner h sp' -> live_owner h2 sp'.
Proof.
  destruct sp as [b|]; cbn.
  - intros (c & o & Hc & Hge & _). rewrite Hc. eexists. split; [reflexivity|].
    intros sp' Hsp'. now apply live_owner_one_more.
  - intros _. exists h. split; [reflexivity|auto].
Qed.

(** C8: after [a = b] the three members of [a] are those a buffer
    copy-constructed from [b] has (both are [b]'s); the two heaps differ
    by the release of what [a] owned before. *)
Theorem assign_as_copy (h : heap) (this other : Buf.t) :
  live_owner h (Buf._alloc this) -> live_owner h (Buf._alloc other) ->
  exists assigned copied h1 h2,
    Buf.assign this other h = Ok (assigned, h1) /\
    Buf.ctor_copy other h = Ok (copied, h2) /\
    assigned = copied /\
    Buf._alloc assigned = Buf._alloc other /\
    Buf._data assigned = Buf._data other /\
    Buf._len assigned = Buf._len other /\
    sp_release (Buf._alloc this) h2 = Ok (tt, h1).
Proof.
  intros Hthis Hother.
  destruct (sp_copy_live h _ Hother) as (h2 & Hcopy & Hkeep).
  destruct (sp_release_live h2 _ (Hkeep _ Hthis)) as (h1 & Hrel).
  exists (Buf.mk (Buf._alloc other) (Buf._data other) (Buf._len other)),
         (Buf.mk (Buf._alloc other) (Buf._data other) (Buf._len other)), h1, h2.
  unfold Buf.assign, Buf.ctor_copy. rewrite !init_unfold, Hcopy, Hrel.
  repeat split; reflexivity.
Qed.

Lemma assign_as_copy_witness :
  exists assigned copied h1 h2,
    Buf.assign (Buf.ctor_wrap 64 2) example_buf example_heap = Ok (assigned, h1) /\
    Buf.ctor_copy example_buf example_heap = Ok (copied, h2) /\
    assigned = copied.
Proof.
  destruct (assign_as_copy example_heap (Buf.ctor_wrap 64 2) example_buf)
    as (x & y & h1 & h2 & Hassign & Hcopy & Heq & _).
  - exact I.
  - exists 1, (Alloc.mk 1 3). cbn. repeat split; try reflexivity; try lia.
    right. now exists 3.
  - exists x, y, h1, h2. repeat split; assumption.
Defined.

(** ** Sharing *)

Lemma load_store_same (a : ptr) (v : byte) (h : heap) :
  load a (store a v h) = v.
Proof. unfold load, store. cbn. now rewrite Z.eqb_refl. Qed.

Lemma load_store_other (a a' : ptr) (v : byte) (h : heap) :
  a' <> a -> load a' (store a v h) = load a' h.
Proof.
  intros Hne. unfold load, store. cbn.
  destruct (Z.eqb_spec a' a); [contradiction|reflexivity].
Qed.

Lemma ctor_slice_owning (h : heap) (other : Buf.t) (a : loc) (c : Z)
    (offset len : Z) :
  Buf._alloc other = Some a -> counts h !! a = Some c ->
  Buf.ctor_slice other offset len h
  = Ok (Buf.slice offset len other, set_counts <[a := c + 1]> h).
Proof.
  intros Ha Hc. unfold Buf.ctor_slice, bind.
  pose proof (ctor_copy_owning h other a c Ha Hc) as Hcopy.
  unfold Buf.ctor_copy in Hcopy. now rewrite Hcopy.
Qed.

(** C1: a buffer copy-constructed from an owning buffer, sliced or not,
    holds the same [Alloc] as its source; the construction allocates and
    copies nothing (only the use count changes); every position of the
    new view is a position of the source view at the same address, so a
    byte stored through either view there is the byte loaded through the
    other. *)
Theorem copy_shares_allocation (h : heap) (other : Buf.t) (a : loc) (c : Z)
    (offset len : Z) :
  Buf._alloc other = Some a -> counts h !! a = Some c ->
  Int.in_range (Buf.length other) ->
  exists copy sl h',
    Buf.ctor_copy other h = Ok (copy, h') /\
    Buf.ctor_slice other offset len h = Ok (sl, h') /\
    Buf._alloc copy = Some a /\ Buf._alloc sl = Some a /\
    h' = set_counts <[a := c + 1]> h /\
    mem h' = mem h /\ arrays h' = arrays h /\ brk h' = brk h /\
    objs h' = objs h /\
    (forall i v, 0 <= i < Buf.length copy ->
       0 <= i < Buf.length other /\
       Buf.index copy i = Buf.index other i /\
       load (Buf.index copy i) (store (Buf.index other i) v h') = v /\
       load (Buf.index other i) (store (Buf.index copy i) v h') = v) /\
    (forall j v, 0 <= j < Buf.length sl ->
       let i := clamp offset (Buf.length other) + j in
       0 <= i < Buf.length other /\
       Buf.index sl j = Buf.index other i /\
       load (Buf.index sl j) (store (Buf.index other i) v h') = v /\
       load (Buf.index other i) (store (Buf.index sl j) v h') = v).
Proof.
  intros Ha Hc HL.
  exists other, (Buf.slice offset len other), (set_counts <[a := c + 1]> h).
  split; [now apply ctor_copy_owning|].
  split; [now apply ctor_slice_owning|].
  split; [exact Ha|]. split; [now rewrite slice_alloc|].
  do 5 (split; [reflexivity|]).
  split.
  - intros i v Hi. split; [exact Hi|]. split; [reflexivity|].
    split; apply load_store_same.
  - intros j v Hj i.
    unfold Buf.length in HL, Hj, i |- *.
    rewrite (slice_closed_form offset len other HL) in Hj |- *. cbn in Hj.
    assert (Haddr : Buf.index
                      (Buf.mk (Buf._alloc other)
                         (Buf._data other + clamp offset (Buf._len other))
                         (Z.max 0 (Z.min len
                            (Buf._len other - clamp offset (Buf._len other))))) j
                    = Buf.index other i).
    { unfold Buf.index. cbn. subst i. lia. }
    split.
    + subst i. unfold clamp in *. lia.
    + split; [exact Haddr|]. rewrite Haddr. split; apply load_store_same.
Qed.

Lemma copy_shares_allocation_witness :
  exists copy sl h',
    Buf.ctor_copy example_buf example_heap = Ok (copy, h') /\
    Buf.ctor_slice example_buf 1 5 example_heap = Ok (sl, h') /\
    load (Buf.index sl 0) (store (Buf.index example_buf (clamp 1 3 + 0)) xff h') = xff.
Proof.
  destruct (copy_shares_allocation example_heap example_buf 1%positive 1 1 5)
    as (copy & sl & h' & Hcopy & Hslice & Hac & Hasl & Hh & _ & _ & _ & _ & _ & Hov).
  - reflexivity.
  - reflexivity.
  - vm_compute. split; discriminate.
  - exists copy, sl, h'. split; [exact Hcopy|]. split; [exact Hslice|].
    apply (Hov 0 xff).
    assert (Hs : sl = Buf.slice 1 5 example_buf).
    { rewrite (ctor_slice_owning example_heap example_buf 1%positive 1 1 5
                 eq_refl eq_refl) in Hslice. now inversion Hslice. }
    rewrite Hs. vm_compute. split; [discriminate|reflexivity].
Defined.

(** ** [same] *)

Lemma byte_to_N_inj (x y : byte) : Byte.to_N x = Byte.to_N y -> x = y.
Proof.
  intros H. pose proof (Byte.of_to_N x) as Hx. rewrite H, Byte.of_to_N in Hx.
  congruence.
Qed.

Lemma memcmp_from_zero_iff (m : ptr -> byte) (n : nat) :
  forall p q,
    memcmp_from m p q n = 0 <->
    forall k : nat, (k < n)%nat -> m (p + Z.of_nat k) = m (q + Z.of_nat k).
Proof.
  induction n as [|n IH]; intros p q; cbn [memcmp_from].
  - split; [intros _ k Hk; lia | reflexivity].
  - cbv zeta.
    destruct (Z.eqb_spec (Z.of_N (Byte.to_N (m p))) (Z.of_N (Byte.to_N (m q))))
      as [Heq|Hne].
    + apply N2Z.inj, byte_to_N_inj in Heq. rewrite IH. split.
      * intros Hrest [|k] Hk.
        -- now rewrite !Z.add_0_r.
        -- specialize (Hrest k ltac:(lia)).
           now replace (p + Z.of_nat (S k)) with (p + 1 + Z.of_nat k) by lia;
             replace (q + Z.of_nat (S k)) with (q + 1 + Z.of_nat k) by lia.
      * intros Hall k Hk. specialize (Hall (S k) ltac:(lia)).
        now replace (p + Z.of_nat (S k)) with (p + 1 + Z.of_nat k) in Hall by lia;
          replace (q + Z.of_nat (S k)) with (q + 1 + Z.of_nat k) in Hall by lia.
    + split; [lia|]. intros Hall. exfalso. apply Hne.
      specialize (Hall O ltac:(lia)). rewrite !Z.add_0_r in Hall. now rewrite Hall.
Qed.





(** Two views are the same list of bytes when they have one length and
    agree position by position. *)
Lemma view_eq_iff (a b : Buf.t) (h : heap) :
  view a h = view b h <->
  Z.to_nat (Buf.length a) = Z.to_nat (Buf.length b) /\
  forall i, 0 <= i < Buf.length a ->
            load (Buf.index a i) h = load (Buf.index b i) h.
Proof.
  unfold view. split.
  - intros Heq. split.
    + apply (f_equal List.length) in Heq.
      now rewrite !length_fmap, !length_seqZ in Heq.
    + intros i Hi.
      apply (f_equal (fun l => l !! Z.to_nat i)) in Heq.
      rewrite !list_lookup_fmap in Heq.
      rewrite (lookup_seqZ_lt 0 (Buf.length a)) in Heq by lia.
      destruct (seqZ 0 (Buf.length b) !! Z.to_nat i) as [j|] eqn:Hj;
        [|discriminate].
      apply lookup_seqZ in Hj. destruct Hj as [-> _]. cbn in Heq.
      rewrite !Z.add_0_l, Z2Nat.id in Heq by lia. congruence.
  - intros [Hlen Hall]. apply list_eq. intros k.
    rewrite !list_lookup_fmap.
    destruct (Z_lt_le_dec (Z.of_nat k) (Buf.length a)) as [Hlt|Hge].
    + rewrite (lookup_seqZ_lt 0 (Buf.length a)) by assumption.
      rewrite (lookup_seqZ_lt 0 (Buf.length b)) by lia. cbn.
      f_equal. apply Hall. lia.
    + rewrite (lookup_seqZ_ge 0 (Buf.length a)) by assumption.
      rewrite (lookup_seqZ_ge 0 (Buf.length b)) by lia. reflexivity.
Qed.




(** ** [hex] *)

Lemma string_append_cons (c : ascii) (s1 s2 : string) :
  String.append (String c s1) s2 = String c (String.append s1 s2).
Proof. reflexivity. Qed.

Lemma string_append_empty_l (s : string) : String.append EmptyString s = s.
Proof. reflexivity. Qed.

Lemma string_append_assoc (s1 s2 s3 : string) :
  String.append (String.append s1 s2) s3 = String.append s1 (String.append s2 s3).
Proof.
  induction s1 as [|c s1 IH]; [reflexivity|].
  now rewrite !string_append_cons, IH.
Qed.

Lemma string_append_empty_r (s : string) : String.append s EmptyString = s.
Proof.
  induction s as [|c s IH]; [reflexivity|].
  now rewrite string_append_cons, IH.
Qed.

(** The accumulating loop of [hex] appends the entries in order. *)
Lemma hex_loop_foldr {A} (g : A -> string) (l : list A) (acc : string) :
  foldl (fun str x => String.append str (g x)) acc l
  = String.append acc (foldr (fun x s => String.append (g x) s) EmptyString l).
Proof.
  revert acc. induction l as [|x l IH]; intros acc; cbn [foldl foldr].
  - now rewrite string_append_empty_r.
  - now rewrite IH, string_append_assoc.
Qed.

Lemma hex_view (this : Buf.t) (h : heap) :
  Buf.hex this h = hex_of_bytes (view this h).
Proof.
  unfold Buf.hex, hex_of_bytes, view. rewrite hex_loop_foldr. cbn.
  now rewrite foldr_fmap.
Qed.

Lemma BYTE_TO_HEX_shape (b : byte) :
  exists c1 c2, BYTE_TO_HEX b = String c1 (String c2 EmptyString) /\
                is_lower_hex c1 /\ is_lower_hex c2.
Proof.
  eexists _, _. split; [reflexivity|].
  destruct b; vm_compute; split; eexists; reflexivity.
Qed.

Lemma unhex_two (c1 c2 : ascii) (s : string) :
  unhex (String.append (String c1 (String c2 EmptyString)) s) =
  match hex_value c1, hex_value c2, unhex s with
  | Some hi, Some lo, Some bs =>
      match Byte.of_N (hi * 16 + lo) with
      | Some b => Some (b :: bs)
      | None => None
      end
  | _, _, _ => None
  end.
Proof. reflexivity. Qed.

Lemma unhex_BYTE_TO_HEX (b : byte) (s : string) :
  unhex (String.append (BYTE_TO_HEX b) s) = (cons b) <$> unhex s.
Proof.
  unfold BYTE_TO_HEX. cbv zeta. rewrite unhex_two.
  destruct b; cbn; destruct (unhex s); reflexivity.
Qed.

Lemma hex_of_bytes_length (bs : list byte) :
  String.length (hex_of_bytes bs) = (2 * List.length bs)%nat.
Proof.
  induction bs as [|b bs IH]; [reflexivity|].
  cbn [hex_of_bytes foldr List.length]. fold (hex_of_bytes bs).
  destruct (BYTE_TO_HEX_shape b) as (c1 & c2 & -> & _).
  rewrite !string_append_cons, string_append_empty_l. cbn. rewrite IH. lia.
Qed.

Lemma hex_of_bytes_lower (bs : list byte) :
  Forall is_lower_hex (list_ascii_of_string (hex_of_bytes bs)).
Proof.
  induction bs as [|b bs IH]; [constructor|].
  cbn [hex_of_bytes foldr]. fold (hex_of_bytes bs).
  destruct (BYTE_TO_HEX_shape b) as (c1 & c2 & -> & H1 & H2).
  rewrite !string_append_cons, string_append_empty_l. cbn.
  constructor; [exact H1|]. constructor; [exact H2|exact IH].
Qed.

Lemma unhex_hex_of_bytes (bs : list byte) : unhex (hex_of_bytes bs) = Some bs.
Proof.
  induction bs as [|b bs IH]; [reflexivity|].
  cbn [hex_of_bytes foldr]. fold (hex_of_bytes bs).
  now rewrite unhex_BYTE_TO_HEX, IH.
Qed.

(** C9: [hex] gives, for the bytes of the view in view order, the two
    lowercase hexadecimal digits of each byte and nothing else: the
    string has two characters per byte, all of them lowercase
    hexadecimal digits, and reads back as the view; on the bytes 0x00,
    0xFF, 0x10 it is "00ff10". *)
Theorem hex_spec (this : Buf.t) (h : heap) :
  Buf.hex this h = hex_of_bytes (view this h) /\
  String.length (Buf.hex this h) = (2 * List.length (view this h))%nat /\
  String.length (Buf.hex this h) = (2 * Z.to_nat (Buf.length this))%nat /\
  Forall is_lower_hex (list_ascii_of_string (Buf.hex this h)) /\
  unhex (Buf.hex this h) = Some (view this h) /\
  (view this h = [x00; xff; x10] -> Buf.hex this h = "00ff10"%string).
Proof.
  rewrite hex_view. split; [reflexivity|].
  split; [apply hex_of_bytes_length|].
  split; [rewrite hex_of_bytes_length; unfold view;
          now rewrite length_fmap, length_seqZ|].
  split; [apply hex_of_bytes_lower|].
  split; [apply unhex_hex_of_bytes|].
  intros ->. reflexivity.
Qed.

Lemma hex_spec_witness :
  view example_buf hex_example_heap = [x00; xff; x10] /\
  Buf.hex example_buf hex_example_heap = "00ff10"%string.
Proof.
  split; [reflexivity|].
  destruct (hex_spec example_buf hex_example_heap) as (_ & _ & _ & _ & _ & Hex).
  apply Hex. reflexivity.
Defined.

(** ** The concatenating constructor *)

Lemma concat_loop_unfold (dst : ptr) (len : Z) (srcs : list Buf.t) :
  Buf.concat_loop dst len srcs =
  if len >? 0 then
    match srcs with
    | [] => fail AssertionFailure
    | src :: srcs' =>
        let now := Z.min len (Buf.length src) in
        (memcpy dst (Buf.data src) now ;;
         Buf.concat_loop (dst + now) (Int.wrap (len - now)) srcs')
    end
  else ret tt.
Proof. destruct srcs; reflexivity. Qed.

Lemma total_length_cons (s : Buf.t) (srcs : list Buf.t) :
  total_length (s :: srcs) = Buf.length s + total_length srcs.
Proof. reflexivity. Qed.

Lemma total_length_nonneg (h : heap) (srcs : list Buf.t) :
  Forall (valid_source h) srcs -> 0 <= total_length srcs.
Proof.
  induction 1 as [|s srcs (Hs & _) _ IH].
  - unfold total_length. cbn. lia.
  - rewrite total_length_cons. lia.
Qed.

(** Sources too short for the declared length: the assertion fails. *)
Lemma concat_loop_short (h0 : heap) (srcs : list Buf.t) :
  Forall (valid_source h0) srcs ->
  forall dst len h,
    Int.in_range len -> total_length srcs < len ->
    Buf.concat_loop dst len srcs h = Err AssertionFailure.
Proof.
  induction 1 as [|s srcs (Hs & Hsr & _) Hrest IH]; intros dst len h Hr Hlt;
    rewrite concat_loop_unfold;
    [unfold total_length in Hlt; cbn in Hlt | rewrite total_length_cons in Hlt].
  - destruct (Z.gtb_spec len 0); [reflexivity|lia].
  - pose proof (total_length_nonneg _ _ Hrest) as Htot.
    destruct (Z.gtb_spec len 0); [|lia]. cbv zeta.
    unfold bind, memcpy, modify.
    rewrite Z.min_r by lia.
    assert (Hin : Int.in_range (len - Buf.length s)).
    { unfold Int.in_range, Int.min_signed, Int.max_signed in *. lia. }
    rewrite (Int_wrap_id _ Hin). apply IH; [exact Hin|lia].
Qed.

Lemma view_length (s : Buf.t) (h : heap) :
  List.length (view s h) = Z.to_nat (Buf.length s).
Proof. unfold view. now rewrite length_fmap, length_seqZ. Qed.

Lemma view_lookup (s : Buf.t) (h : heap) (i : Z) :
  0 <= i < Buf.length s ->
  view s h !! Z.to_nat i = Some (mem h (Buf.data s + i)).
Proof.
  intros Hi. unfold view. rewrite list_lookup_fmap.
  rewrite lookup_seqZ_lt by lia. cbn.
  unfold load, Buf.index, Buf.data. do 2 f_equal. lia.
Qed.

(** A view depends on the bytes under it only. *)
Lemma view_frame (s : Buf.t) (h h' : heap) :
  (forall i, 0 <= i < Buf.length s ->
             mem h' (Buf.data s + i) = mem h (Buf.data s + i)) ->
  view s h' = view s h.
Proof.
  intros Hsame. unfold view. apply list_fmap_ext.
  intros k i Hk. apply lookup_seqZ in Hk. destruct Hk as [-> Hk].
  unfold load, Buf.index. apply (Hsame (0 + Z.of_nat k)). lia.
Qed.

Lemma source_bytes_frame (srcs : list Buf.t) (h h' : heap) :
  Forall (fun s => forall i, 0 <= i < Buf.length s ->
                     mem h' (Buf.data s + i) = mem h (Buf.data s + i)) srcs ->
  source_bytes srcs h' = source_bytes srcs h.
Proof.
  induction 1 as [|s srcs Hs _ IH]; [reflexivity|].
  unfold source_bytes in *. cbn. now rewrite (view_frame _ _ _ Hs), IH.
Qed.

Lemma source_bytes_length (h0 : heap) (srcs : list Buf.t) (h : heap) :
  Forall (valid_source h0) srcs ->
  List.length (source_bytes srcs h) = Z.to_nat (total_length srcs).
Proof.
  induction 1 as [|s srcs (Hs & _) Hrest IH]; [reflexivity|].
  pose proof (total_length_nonneg _ _ Hrest).
  rewrite total_length_cons.
  unfold source_bytes in *. cbn. rewrite length_app, IH, view_length. lia.
Qed.

Lemma in_block_iff (dst n a : Z) :
  in_block dst n a = true <-> dst <= a < dst + n.
Proof. unfold in_block. rewrite andb_true_iff, Z.leb_le, Z.ltb_lt. reflexivity. Qed.

Lemma memcpy_bytes_inside (dst src n : Z) (m : ptr -> byte) (i : Z) :
  0 <= i < n -> memcpy_bytes dst src n m (dst + i) = m (src + i).
Proof.
  intros Hi. unfold memcpy_bytes.
  destruct (in_block dst n (dst + i)) eqn:Hb.
  - f_equal. lia.
  - exfalso. apply not_true_iff_false in Hb. apply Hb, in_block_iff. lia.
Qed.

Lemma memcpy_bytes_outside (dst src n : Z) (m : ptr -> byte) (a : Z) :
  ~ (dst <= a < dst + n) -> memcpy_bytes dst src n m a = m a.
Proof.
  intros Ha. unfold memcpy_bytes.
  destruct (in_block dst n a) eqn:Hb; [|reflexivity].
  exfalso. apply Ha, in_block_iff, Hb.
Qed.

(** Sources long enough: the loop ends normally; it writes inside the
    destination only, and what it leaves there is the prefix of the
    bytes offered by the sources. *)
Lemma concat_loop_copies (h0 : heap) (srcs : list Buf.t) :
  Forall (valid_source h0) srcs ->
  forall dst len h,
    0 <= len -> Int.in_range len -> len <= total_length srcs ->
    Forall (fun s => Buf.data s + Buf.length s <= dst \/
                     dst + len <= Buf.data s) srcs ->
    exists h',
      Buf.concat_loop dst len srcs h = Ok (tt, h') /\
      arrays h' = arrays h /\ brk h' = brk h /\
      objs h' = objs h /\ counts h' = counts h /\
      (forall a, ~ (dst <= a < dst + len) -> mem h' a = mem h a) /\
      (forall i, 0 <= i < len ->
         source_bytes srcs h !! Z.to_nat i = Some (mem h' (dst + i))).
Proof.
  induction 1 as [|s srcs (Hs & Hsr & _) Hrest IH];
    intros dst len h Hlen Hr Hle Hdisj; rewrite concat_loop_unfold.
  - unfold total_length in Hle. cbn in Hle.
    destruct (Z.gtb_spec len 0); [lia|]. exists h.
    repeat split; try reflexivity. intros i Hi. lia.
  - rewrite total_length_cons in Hle.
    pose proof (total_length_nonneg _ _ Hrest) as Htot.
    destruct (Z.gtb_spec len 0) as [Hpos|Hzero].
    2:{ exists h. repeat split; try reflexivity. intros i Hi. lia. }
    cbv zeta. set (now := Z.min len (Buf.length s)).
    assert (Hnow : 0 <= now <= len) by (subst now; lia).
    assert (Hnow' : now <= Buf.length s) by (subst now; lia).
    assert (Hnr : Int.in_range now) by
      (unfold Int.in_range, Int.min_signed, Int.max_signed in *; lia).
    assert (Hrem : Int.in_range (len - now)) by
      (unfold Int.in_range, Int.min_signed, Int.max_signed in *; lia).
    unfold bind, memcpy, modify.
    rewrite (Int_to_size_t_id _ Hnr) by lia. rewrite (Int_wrap_id _ Hrem).
    set (h1 := set_mem (memcpy_bytes dst (Buf.data s) now) h).
    apply Forall_cons in Hdisj. destruct Hdisj as [Hds Hdrest].
    destruct (IH (dst + now) (len - now) h1) as
        (h' & Hrun & Harr & Hbrk & Hobjs & Hcnt & Hout & Hin);
      [lia | exact Hrem | subst now; lia | |].
    { eapply Forall_impl; [exact Hdrest|]. cbn. intros s' Hs'. lia. }
    assert (Hsrc1 : forall s', (Buf.data s' + Buf.length s' <= dst \/
                                dst + len <= Buf.data s') ->
              forall i, 0 <= i < Buf.length s' ->
                mem h1 (Buf.data s' + i) = mem h (Buf.data s' + i)).
    { intros s' Hs' i Hi. subst h1. cbn. apply memcpy_bytes_outside. lia. }
    assert (Hrest1 : source_bytes srcs h1 = source_bytes srcs h).
    { apply source_bytes_frame. eapply Forall_impl; [exact Hdrest|].
      cbn. intros s' Hs'. now apply Hsrc1. }
    exists h'. split; [exact Hrun|]. repeat split; try assumption.
    + intros a Ha. rewrite Hout by lia. subst h1. cbn.
      apply memcpy_bytes_outside. lia.
    + intros i Hi. unfold source_bytes. cbn [fmap list_fmap concat].
      fold (source_bytes srcs h).
      destruct (Z_lt_le_dec i now) as [Hlt|Hge].
      * rewrite lookup_app_l by (rewrite view_length; lia).
        rewrite view_lookup by lia.
        rewrite Hout by lia. subst h1. cbn.
        now rewrite memcpy_bytes_inside by lia.
      * assert (now = Buf.length s) by (subst now; lia).
        rewrite lookup_app_r by (rewrite view_length; lia).
        rewrite view_length.
        replace (Z.to_nat i - Z.to_nat (Buf.length s))%nat
          with (Z.to_nat (i - now)) by lia.
        rewrite <- Hrest1, Hin by lia. do 2 f_equal. lia.
Qed.

(** C3, as stated, at the declared length 2: the two sources hold 3
    bytes, the declared length is 2, and the constructor returns the
    buffer [0x01, 0x02]; no assertion fails. *)
Lemma concat_declared_2_no_assertion :
  total_length concat_srcs <> 2 /\
  Buf.ctor_concat 2 concat_srcs concat_heap <> Err AssertionFailure /\
  eval (concat_view 2 concat_srcs) concat_heap = Ok [x01; x02].
Proof.
  split; [vm_compute; discriminate|].
  split; [vm_compute; discriminate|reflexivity].
Qed.

(** C3 (amended): from [0x01, 0x02] and [0x03] with declared length 3
    the constructor builds [0x01, 0x02, 0x03].  For sources of valid
    (non-negative) length and a declared length [len] that is not
    negative: when the sources hold fewer than [len] bytes the assertion
    fails; when they hold at least [len] bytes the constructor succeeds
    and the buffer is the first [len] bytes the sources offer (all of
    them when they hold exactly [len]).  A negative declared length
    fails in the allocation, before the loop and its assertion. *)
Theorem ctor_concat_spec (h : heap) (len : Z) (srcs : list Buf.t) :
  Int.in_range len -> Forall (valid_source h) srcs ->
  eval (concat_view 3 concat_srcs) concat_heap = Ok [x01; x02; x03] /\
  (len < 0 -> Buf.ctor_concat len srcs h = Err BadArrayNewLength) /\
  (0 <= len -> total_length srcs < len ->
   Buf.ctor_concat len srcs h = Err AssertionFailure) /\
  (0 <= len -> len <= total_length srcs ->
   exists this h',
     Buf.ctor_concat len srcs h = Ok (this, h') /\
     Buf.length this = len /\
     view this h' = take (Z.to_nat len) (source_bytes srcs h) /\
     (len = total_length srcs -> view this h' = source_bytes srcs h)).
Proof.
  intros Hr Hsrcs. split; [reflexivity|]. split.
  { intros Hneg. unfold Buf.ctor_concat, bind.
    now rewrite (ctor_len_negative h len Hneg). }
  split.
  - intros Hlen Hshort.
    pose proof (ctor_len_spec h len Hlen) as Hctor. cbv zeta in Hctor.
    unfold Buf.ctor_concat, bind. rewrite Hctor. cbn [Buf._data].
    now rewrite (concat_loop_short h srcs Hsrcs).
  - intros Hlen Hle.
    pose proof (ctor_len_spec h len Hlen) as Hctor. cbv zeta in Hctor.
    set (a := fresh_loc h) in *.
    set (h1 := set_counts _ _) in Hctor.
    unfold Buf.ctor_concat, bind. rewrite Hctor. cbn [Buf._data].
    destruct (concat_loop_copies h srcs Hsrcs (brk h) len h1 Hlen Hr Hle)
      as (h' & Hrun & _ & _ & _ & _ & _ & Hin).
    { eapply Forall_impl; [exact Hsrcs|]. cbn. intros s (_ & _ & Hs). now left. }
    rewrite Hrun. exists (Buf.mk (Some a) (brk h) len), h'.
    split; [reflexivity|]. split; [reflexivity|].
    assert (Hsame : source_bytes srcs h1 = source_bytes srcs h).
    { apply source_bytes_frame. apply Forall_forall. intros; reflexivity. }
    rewrite Hsame in Hin.
    assert (Hview : view (Buf.mk (Some a) (brk h) len) h'
                    = take (Z.to_nat len) (source_bytes srcs h)).
    { apply list_eq. intros k.
      destruct (Z_lt_le_dec (Z.of_nat k) len) as [Hlt|Hge].
      - rewrite lookup_take_lt by lia.
        specialize (Hin (Z.of_nat k) ltac:(lia)). rewrite Nat2Z.id in Hin.
        rewrite Hin.
        pose proof (view_lookup (Buf.mk (Some a) (brk h) len) h' (Z.of_nat k)
                      ltac:(cbn; lia)) as Hv.
        rewrite Nat2Z.id in Hv. exact Hv.
      - rewrite lookup_take_ge by lia.
        apply lookup_ge_None_2. rewrite view_length. cbn. lia. }
    split; [exact Hview|].
    intros Heq. rewrite Hview. apply take_ge.
    rewrite (source_bytes_length h srcs h Hsrcs). lia.
Qed.

Lemma ctor_concat_spec_witness :
  Buf.ctor_concat 4 concat_srcs concat_heap = Err AssertionFailure /\
  Buf.ctor_concat (-1) concat_srcs concat_heap = Err BadArrayNewLength /\
  exists this h',
    Buf.ctor_concat 3 concat_srcs concat_heap = Ok (this, h') /\
    view this h' = source_bytes concat_srcs concat_heap.
Proof.
  assert (Hsrcs : Forall (valid_source concat_heap) concat_srcs).
  { repeat constructor; vm_compute; discriminate. }
  split; [|split].
  - destruct (ctor_concat_spec concat_heap 4 concat_srcs) as (_ & _ & Hshort & _).
    + vm_compute. split; discriminate.
    + exact Hsrcs.
    + apply Hshort; [lia|]. vm_compute. reflexivity.
  - destruct (ctor_concat_spec concat_heap (-1) concat_srcs) as (_ & Hneg & _).
    + vm_compute. split; discriminate.
    + exact Hsrcs.
    + apply Hneg. lia.
  - destruct (ctor_concat_spec concat_heap 3 concat_srcs) as (_ & _ & _ & Hok).
    + vm_compute. split; discriminate.
    + exact Hsrcs.
    + destruct Hok as (this & h' & Hrun & _ & _ & Hall).
      * lia.
      * vm_compute. discriminate.
      * exists this, h'. split; [exact Hrun|]. apply Hall. reflexivity.
Defined.

(** * Further properties *)

(** ** Views and [operator[]] *)

Lemma view_lookup_None (s : Buf.t) (h : heap) (k : nat) :
  Buf.length s <= Z.of_nat k -> view s h !! k = None.
Proof. intros Hk. apply lookup_ge_None_2. rewrite view_length. lia. Qed.

Lemma view_lookup_nat (s : Buf.t) (h : heap) (k : nat) :
  Z.of_nat k < Buf.length s ->
  view s h !! k = Some (mem h (Buf.data s + Z.of_nat k)).
Proof.
  intros Hk. pose proof (view_lookup s h (Z.of_nat k) ltac:(lia)) as Hv.
  now rewrite Nat2Z.id in Hv.
Qed.

(** X4: [operator[]] does no bounds check.  A store through [this[i]] with
    [i] inside the view changes position [i] of the view and no other;
    with [i] outside the view it still writes the byte at [_data + i],
    and the view is as before. *)
Theorem index_store_view (this : Buf.t) (h : heap) (i : Z) (v : byte) :
  load (Buf.index this i) (store (Buf.index this i) v h) = v /\
  (0 <= i < Buf.length this ->
   view this (store (Buf.index this i) v h)
   = <[Z.to_nat i := v]> (view this h)) /\
  (~ (0 <= i < Buf.length this) ->
   view this (store (Buf.index this i) v h) = view this h).
Proof.
  split; [apply load_store_same|]. split.
  - intros Hi. apply list_eq. intros k.
    destruct (Z_lt_le_dec (Z.of_nat k) (Buf.length this)) as [Hk|Hk].
    + rewrite view_lookup_nat by assumption.
      destruct (decide (k = Z.to_nat i)) as [->|Hne].
      * rewrite list_lookup_insert_eq by (rewrite view_length; lia).
        unfold store, Buf.index, Buf.data. cbn. rewrite Z2Nat.id by lia.
        now rewrite Z.eqb_refl.
      * rewrite list_lookup_insert_ne by congruence.
        rewrite view_lookup_nat by assumption.
        unfold store, Buf.index, Buf.data. cbn.
        destruct (Z.eqb_spec (Buf._data this + Z.of_nat k) (Buf._data this + i));
          [lia|reflexivity].
    + rewrite view_lookup_None by assumption. symmetry.
      apply lookup_ge_None_2. rewrite length_insert, view_length. lia.
  - intros Hi. apply view_frame. intros j Hj.
    unfold store, Buf.index, Buf.data. cbn.
    destruct (Z.eqb_spec (Buf._data this + j) (Buf._data this + i));
      [lia|reflexivity].
Qed.

Lemma index_store_view_witness :
  view example_buf (store (Buf.index example_buf 1) xff example_heap)
  = [x00; xff; x00].
Proof.
  destruct (index_store_view example_buf example_heap 1 xff) as (_ & Hin & _).
  rewrite Hin; [reflexivity|]. vm_compute. split; [discriminate|reflexivity].
Defined.

(** ** More on [slice] *)

(** X1: The bytes of a sliced view are those of the view with the first
    [offset] dropped and at most [len] kept: out-of-range arguments act
    as on lists (a negative one counts as 0). *)
Theorem slice_view (this : Buf.t) (offset len : Z) (h : heap) :
  Int.in_range (Buf.length this) ->
  view (Buf.slice offset len this) h
  = take (Z.to_nat len) (drop (Z.to_nat offset) (view this h)).
Proof.
  intros HL. unfold Buf.length in HL. rewrite (slice_closed_form _ _ _ HL).
  set (L := Buf._len this) in *. set (c := clamp offset L).
  set (r := Buf.mk _ _ _).
  assert (Hr : Buf.length r = Z.max 0 (Z.min len (L - c))) by reflexivity.
  assert (Hd : Buf.data r = Buf._data this + c) by reflexivity.
  apply list_eq. intros k.
  destruct (Z_lt_le_dec (Z.of_nat k) (Buf.length r)) as [Hk|Hk].
  - rewrite view_lookup_nat by assumption.
    rewrite Hr in Hk. unfold c, clamp in Hk.
    rewrite lookup_take_lt by lia. rewrite lookup_drop.
    rewrite view_lookup_nat by (unfold Buf.length; fold L; lia).
    rewrite Hd. unfold Buf.data. do 2 f_equal. unfold c, clamp. lia.
  - rewrite view_lookup_None by assumption. symmetry.
    rewrite Hr in Hk. unfold c, clamp in Hk.
    destruct (Z_lt_le_dec (Z.of_nat k) len) as [Hlt|Hge].
    + rewrite lookup_take_lt by lia. rewrite lookup_drop.
      apply view_lookup_None. unfold Buf.length. fold L. lia.
    + apply lookup_take_ge. lia.
Qed.

Lemma slice_view_witness :
  view (Buf.slice 1 5 example_buf) hex_example_heap = [xff; x10].
Proof.
  rewrite (slice_view example_buf 1 5 hex_example_heap).
  - reflexivity.
  - vm_compute. split; discriminate.
Defined.

(** X2: A slice never leaves the view it was taken from: its bytes lie
    between the first and the last byte of that view. *)
Theorem slice_within (this : Buf.t) (offset len : Z) :
  Int.in_range (Buf.length this) -> 0 <= Buf.length this ->
  let r := Buf.slice offset len this in
  Buf.data this <= Buf.data r /\
  Buf.data r + Buf.length r <= Buf.data this + Buf.length this /\
  Buf.length r <= Buf.length this.
Proof.
  intros HL Hpos r. subst r. unfold Buf.length in *.
  rewrite (slice_closed_form _ _ _ HL). unfold Buf.data. cbn.
  unfold clamp. lia.
Qed.

Lemma slice_within_witness :
  Buf.data (Buf.slice 7 9 example_buf) + Buf.length (Buf.slice 7 9 example_buf)
  <= Buf.data example_buf + Buf.length example_buf.
Proof.
  destruct (slice_within example_buf 7 9) as (_ & Hend & _).
  - vm_compute. split; discriminate.
  - vm_compute. discriminate.
  - exact Hend.
Defined.

(** X3: Two slices in a row are one slice: the offsets add up and the
    shorter length wins, as long as the second offset is inside what the
    first slice kept. *)
Theorem slice_slice (this : Buf.t) (o1 l1 o2 l2 : Z) :
  Int.in_range (Buf.length this) ->
  0 <= o1 <= Buf.length this -> 0 <= l1 ->
  0 <= o2 <= Z.min l1 (Buf.length this - o1) ->
  Buf.slice o2 l2 (Buf.slice o1 l1 this)
  = Buf.slice (o1 + o2) (Z.min l2 (l1 - o2)) this.
Proof.
  intros HL Ho1 Hl1 Ho2. unfold Buf.length in *.
  rewrite (slice_closed_form o1 l1 this HL).
  rewrite (slice_closed_form (o1 + o2) _ this HL).
  rewrite slice_closed_form.
  2:{ cbn [Buf._len]. unfold Int.in_range, Int.min_signed, Int.max_signed, clamp in *.
      lia. }
  cbn [Buf._len Buf._data Buf._alloc]. clear HL. unfold clamp.
  set (L := Buf._len this) in *.
  replace (Z.max 0 (Z.min o1 L)) with o1 by lia.
  replace (Z.max 0 (Z.min l1 (L - o1))) with (Z.min l1 (L - o1)) by lia.
  replace (Z.max 0 (Z.min o2 (Z.min l1 (L - o1)))) with o2 by lia.
  replace (Z.max 0 (Z.min (o1 + o2) L)) with (o1 + o2) by lia.
  f_equal; lia.
Qed.

Lemma slice_slice_witness :
  Buf.slice 1 1 (Buf.slice 1 2 example_buf) = Buf.slice 2 1 example_buf.
Proof.
  apply (slice_slice example_buf 1 2 1 1).
  - vm_compute. split; discriminate.
  - vm_compute. split; discriminate.
  - lia.
  - vm_compute. split; discriminate.
Defined.

(** Slicing from 0 with the whole length changes nothing. *)
Lemma slice_whole (this : Buf.t) :
  Int.in_range (Buf.length this) -> 0 <= Buf.length this ->
  Buf.slice 0 (Buf.length this) this = this.
Proof.
  intros HL Hpos. unfold Buf.length in *.
  rewrite (slice_closed_form _ _ _ HL). destruct this as [sp d n]. cbn in *.
  unfold clamp. f_equal; lia.
Qed.

(** ** Heaps built by the operations *)

Lemma empty_heap_wf : heap_wf empty_heap.
Proof.
  split; cbn; try (intros; simplify_map_eq; fail); try lia.
  intros a. rewrite !lookup_empty. split; intros []; discriminate.
Qed.

Lemma fresh_loc_counts (h : heap) : counts h !! fresh_loc h = None.
Proof.
  apply not_elem_of_dom. intros Hin.
  apply (is_fresh (dom (objs h) ∪ dom (counts h))). fold (fresh_loc h).
  set_solver.
Qed.

Lemma fresh_loc_objs (h : heap) : objs h !! fresh_loc h = None.
Proof.
  apply not_elem_of_dom. intros Hin.
  apply (is_fresh (dom (objs h) ∪ dom (counts h))). fold (fresh_loc h).
  set_solver.
Qed.

Lemma heap_wf_set_mem (f : (ptr -> byte) -> ptr -> byte) (h : heap) :
  heap_wf h -> heap_wf (set_mem f h).
Proof. intros [? ? ? ? ? ? ?]. split; assumption. Qed.

Lemma heap_wf_live_owner (h : heap) (sp : shared_ptr) :
  heap_wf h -> owned h sp -> live_owner h sp.
Proof.
  intros Hwf. destruct sp as [a|]; cbn; [|trivial].
  intros [c Hc]. destruct (proj1 (wf_counts h Hwf a)) as [o Ho]; [eauto|].
  exists c, o. split; [exact Hc|]. split; [eapply wf_count_pos; eauto|].
  split; [exact Ho|].
  destruct (wf_obj h Hwf a o Ho) as [Hn|Ha]; [now left|right; eauto].
Qed.

(** The heap [Buf(len)] leaves is well formed, and what was in the heap
    before is still there. *)
Lemma heap_wf_ctor_len (h : heap) (len : Z) :
  heap_wf h -> 0 <= len ->
  let a := fresh_loc h in
  let h' := set_counts <[a := 1]>
              (set_objs <[a := Alloc.mk (brk h) len]>
                 (set_brk (brk h + Z.max 1 len)
                    (set_arrays <[brk h := len]> h))) in
  heap_wf h' /\
  (forall a' c, counts h !! a' = Some c -> counts h' !! a' = Some c) /\
  (forall a' o, objs h !! a' = Some o -> objs h' !! a' = Some o) /\
  (forall p n, arrays h !! p = Some n -> arrays h' !! p = Some n).
Proof.
  intros Hwf Hlen a h'.
  pose proof (fresh_loc_counts h) as Hfc. pose proof (fresh_loc_objs h) as Hfo.
  fold a in Hfc, Hfo.
  assert (Hnew : arrays h !! brk h = None).
  { destruct (arrays h !! brk h) as [n|] eqn:Hn; [|reflexivity].
    apply (wf_arrays h Hwf) in Hn. lia. }
  assert (Hkeep : forall p n, arrays h !! p = Some n -> arrays h' !! p = Some n).
  { intros p n Hp. cbn. rewrite lookup_insert_ne; [exact Hp|]. congruence. }
  split; [|split; [|split]].
  - split; cbn.
    + pose proof (wf_brk h Hwf). lia.
    + intros p n Hp. apply lookup_insert_Some in Hp.
      destruct Hp as [[<- <-]|[_ Hp]].
      * pose proof (wf_brk h Hwf). lia.
      * apply (wf_arrays h Hwf) in Hp. lia.
    + intros p n p' n' Hp Hp' Hne.
      apply lookup_insert_Some in Hp. apply lookup_insert_Some in Hp'.
      destruct Hp as [[<- <-]|[_ Hp]]; destruct Hp' as [[<- <-]|[_ Hp']].
      * contradiction.
      * apply (wf_arrays h Hwf) in Hp'. lia.
      * apply (wf_arrays h Hwf) in Hp. lia.
      * eapply (wf_disjoint h Hwf); eauto.
    + intros a'. destruct (decide (a = a')) as [<-|Hne].
      * rewrite !lookup_insert_eq. split; eauto.
      * rewrite !lookup_insert_ne by assumption. apply (wf_counts h Hwf).
    + intros a' c Hc. apply lookup_insert_Some in Hc.
      destruct Hc as [[_ <-]|[_ Hc]]; [lia|eapply wf_count_pos; eauto].
    + intros a' o Ho. apply lookup_insert_Some in Ho.
      destruct Ho as [[_ <-]|[_ Ho]]; cbn.
      * right. apply lookup_insert_eq.
      * destruct (wf_obj h Hwf a' o Ho) as [Hn|Ha]; [now left|right].
        rewrite lookup_insert_ne; [exact Ha|]. congruence.
    + intros a1 a2 o1 o2 H1 H2 Hnn Heq.
      apply lookup_insert_Some in H1. apply lookup_insert_Some in H2.
      destruct H1 as [[<- <-]|[Hne1 H1]]; destruct H2 as [[<- <-]|[Hne2 H2]].
      * reflexivity.
      * exfalso. cbn in Heq.
        destruct (wf_obj h Hwf a2 o2 H2) as [Hn|Ha]; [cbn in Hnn; congruence|].
        rewrite <- Heq in Ha. congruence.
      * exfalso. cbn in Heq.
        destruct (wf_obj h Hwf a1 o1 H1) as [Hn|Ha]; [congruence|].
        rewrite Heq in Ha. congruence.
      * eapply (wf_own h Hwf); eauto.
  - intros a' c Hc. cbn. rewrite lookup_insert_ne; [exact Hc|]. congruence.
  - intros a' o Ho. cbn. rewrite lookup_insert_ne; [exact Ho|]. congruence.
  - exact Hkeep.
Qed.

Lemma heap_wf_set_count (h : heap) (a : loc) (c c' : Z) :
  heap_wf h -> counts h !! a = Some c -> 1 <= c' ->
  heap_wf (set_counts <[a := c']> h).
Proof.
  intros Hwf Hc Hc'. destruct Hwf as [Hb Ha Hd Hcs Hp Ho Hw].
  split; cbn; try assumption.
  - intros a'. destruct (decide (a = a')) as [<-|Hne].
    + rewrite lookup_insert_eq. split; [intros _|eauto]. apply Hcs. eauto.
    + rewrite lookup_insert_ne by assumption. apply Hcs.
  - intros a' x Hx. apply lookup_insert_Some in Hx.
    destruct Hx as [[_ <-]|[_ Hx]]; [exact Hc'|eauto].
Qed.

(** The heap after the last owner of [a] let go of it. *)
Lemma heap_wf_delete (h : heap) (a : loc) (o : Alloc.t) :
  heap_wf h -> objs h !! a = Some o ->
  heap_wf (set_objs (delete a)
             (set_arrays (if Alloc._data o =? NULL then id
                          else delete (Alloc._data o))
                (set_counts (delete a) h))).
Proof.
  intros Hwf Hobj. pose proof Hwf as [Hb Ha Hd Hcs Hp Ho Hw].
  assert (Hsub : forall p n,
             (if Alloc._data o =? NULL then id else delete (Alloc._data o))
               (arrays h) !! p = Some n -> arrays h !! p = Some n).
  { intros p n. destruct (Alloc._data o =? NULL); [trivial|].
    intros Hp'. apply lookup_delete_Some in Hp'. tauto. }
  split; cbn.
  - exact Hb.
  - intros p n Hp'. eauto.
  - intros p n p' n' H1 H2. eauto.
  - intros a'. destruct (decide (a = a')) as [<-|Hne].
    + rewrite !lookup_delete_eq. split; intros []; discriminate.
    + rewrite !lookup_delete_ne by assumption. apply Hcs.
  - intros a' c Hc. apply lookup_delete_Some in Hc. destruct Hc as [_ Hc]. eauto.
  - intros a' o' Ho'. apply lookup_delete_Some in Ho'. destruct Ho' as [Hne Ho'].
    destruct (Ho a' o' Ho') as [Hn|Harr]; [now left|].
    destruct (Z.eqb_spec (Alloc._data o) NULL) as [Hnull|Hnn]; [now right|].
    destruct (decide (Alloc._data o' = NULL)) as [Hn'|Hnn']; [now left|right].
    rewrite lookup_delete_ne; [exact Harr|].
    intros Heq. apply Hne. eapply Hw; eauto.
  - intros a1 a2 o1 o2 H1 H2.
    apply lookup_delete_Some in H1. apply lookup_delete_Some in H2.
    destruct H1 as [_ H1]. destruct H2 as [_ H2]. eauto.
Qed.

(** Releasing an owner the heap knows never fails and leaves a well
    formed heap: the use count goes down, or, at 1, the array, the
    [Alloc] and the control block go. *)
Lemma sp_release_wf (h : heap) (a : loc) (c : Z) (o : Alloc.t) :
  heap_wf h -> counts h !! a = Some c -> objs h !! a = Some o ->
  exists h',
    sp_release (Some a) h = Ok (tt, h') /\ heap_wf h' /\
    mem h' = mem h /\ brk h' = brk h /\
    (c <> 1 ->
     h' = set_counts <[a := c - 1]> h) /\
    (c = 1 ->
     h' = set_objs (delete a)
            (set_arrays (if Alloc._data o =? NULL then id
                         else delete (Alloc._data o))
               (set_counts (delete a) h))).
Proof.
  intros Hwf Hc Hobj. cbn. rewrite Hc.
  destruct (Z.eqb_spec c 1) as [->|Hne].
  - unfold Alloc_delete, Alloc_dtor, bind, modify, deref. cbn. rewrite Hobj.
    unfold delete_array. cbn.
    pose proof (heap_wf_delete h a o Hwf Hobj) as Hwf'.
    destruct (Z.eqb_spec (Alloc._data o) NULL) as [Hnull|Hnn].
    + eexists. split; [reflexivity|]. split; [exact Hwf'|].
      repeat split; try reflexivity. intros; contradiction.
    + destruct (wf_obj h Hwf a o Hobj) as [Hn|Harr]; [contradiction|].
      rewrite Harr. eexists. split; [reflexivity|]. split; [exact Hwf'|].
      repeat split; try reflexivity. intros; contradiction.
  - eexists. split; [reflexivity|]. split.
    + eapply heap_wf_set_count; eauto.
      pose proof (wf_count_pos h Hwf a c Hc). lia.
    + repeat split; try reflexivity. intros; contradiction.
Qed.

Lemma heap_wf_detach (h : heap) (a : loc) (o : Alloc.t) :
  heap_wf h -> objs h !! a = Some o ->
  heap_wf (set_objs <[a := Alloc.mk NULL 0]> h).
Proof.
  intros Hwf Hobj. destruct Hwf as [Hb Ha Hd Hcs Hp Ho Hw].
  split; cbn; try assumption.
  - intros a'. destruct (decide (a = a')) as [<-|Hne].
    + rewrite lookup_insert_eq. split; [eauto|intros _]. apply Hcs. eauto.
    + rewrite lookup_insert_ne by assumption. apply Hcs.
  - intros a' o' Ho'. apply lookup_insert_Some in Ho'.
    destruct Ho' as [[_ <-]|[_ Ho']]; [now left|eauto].
  - intros a1 a2 o1 o2 H1 H2 Hnn Heq.
    apply lookup_insert_Some in H1. apply lookup_insert_Some in H2.
    destruct H1 as [[<- <-]|[Hne1 H1]]; destruct H2 as [[<- <-]|[Hne2 H2]].
    + reflexivity.
    + cbn in Hnn. contradiction.
    + cbn in Heq. congruence.
    + eauto.
Qed.

Lemma sp_release_owned (h : heap) (sp : shared_ptr) :
  heap_wf h -> owned h sp ->
  exists h',
    sp_release sp h = Ok (tt, h') /\ heap_wf h' /\
    mem h' = mem h /\ brk h' = brk h /\
    (forall b c, counts h !! b = Some c -> sp <> Some b \/ c <> 1 ->
                 is_Some (counts h' !! b)).
Proof.
  intros Hwf. destruct sp as [a|]; cbn [owned].
  - intros [c Hc]. destruct (proj1 (wf_counts h Hwf a)) as [o Ho]; [eauto|].
    destruct (sp_release_wf h a c o Hwf Hc Ho)
      as (h' & Hrun & Hwf' & Hmem & Hbrk & Hshared & Hlast).
    exists h'. do 4 (split; [assumption|]).
    intros b cb Hb Hor. destruct (Z.eq_dec c 1) as [->|Hne].
    + rewrite (Hlast eq_refl). cbn.
      destruct (decide (a = b)) as [<-|Hab].
      * exfalso. destruct Hor as [Hor|Hor]; [congruence|]. congruence.
      * rewrite lookup_delete_ne by assumption. eauto.
    + rewrite (Hshared Hne). cbn.
      destruct (decide (a = b)) as [<-|Hab].
      * rewrite lookup_insert_eq. eauto.
      * rewrite lookup_insert_ne by assumption. eauto.
  - intros _. exists h. split; [reflexivity|]. split; [assumption|].
    do 2 (split; [reflexivity|]). intros b c Hb _. eauto.
Qed.

(** X7: A fresh owning buffer in a well formed heap: the heap stays well
    formed, the new array is live, non-null, was not live before and
    overlaps no array that was live before (on whichever side of it the
    new array lies), the bytes of the heap are untouched and every owner
    the heap knew is still known. *)
Theorem ctor_len_wf (h : heap) (len : Z) :
  heap_wf h -> 0 <= len ->
  exists this h',
    Buf.ctor_len len h = Ok (this, h') /\ heap_wf h' /\
    Buf.length this = len /\ Buf.data this <> NULL /\
    arrays h !! Buf.data this = None /\
    arrays h' !! Buf.data this = Some len /\
    (forall p n, arrays h !! p = Some n ->
       p + Z.max 1 n <= Buf.data this \/ Buf.data this + Z.max 1 len <= p) /\
    owned h' (Buf._alloc this) /\
    (forall sp, owned h sp -> owned h' sp) /\
    mem h' = mem h.
Proof.
  intros Hwf Hlen. pose proof (ctor_len_spec h len Hlen) as Hctor.
  destruct (heap_wf_ctor_len h len Hwf Hlen) as (Hwf' & Hcnt & _ & _).
  cbv zeta in Hctor, Hwf', Hcnt.
  eexists _, _. split; [exact Hctor|]. split; [exact Hwf'|].
  split; [reflexivity|]. unfold Buf.data. cbn.
  split; [pose proof (wf_brk h Hwf); unfold NULL; lia|].
  split.
  { destruct (arrays h !! brk h) as [n|] eqn:Hn; [|reflexivity].
    apply (wf_arrays h Hwf) in Hn. lia. }
  split; [apply lookup_insert_eq|].
  split; [intros p n Hp; apply (wf_arrays h Hwf) in Hp; left; lia|].
  split; [rewrite lookup_insert_eq; eauto|].
  split; [|reflexivity].
  intros [a'|]; cbn; [|trivial]. intros [c Hc]. cbn in Hcnt.
  rewrite (Hcnt a' c Hc). eauto.
Qed.

Lemma ctor_len_wf_witness :
  exists this h',
    Buf.ctor_len 3 empty_heap = Ok (this, h') /\ heap_wf h' /\
    arrays h' !! Buf.data this = Some 3.
Proof.
  destruct (ctor_len_wf empty_heap 3 empty_heap_wf)
    as (this & h' & Hrun & Hwf & _ & _ & _ & Harr & _).
  - lia.
  - exists this, h'. split; [assumption|]. split; assumption.
Defined.

(** X8: In a well formed heap, copy construction, copy-with-slice,
    assignment and destruction of buffers whose owners the heap knows
    never fail (no dangling dereference, no array freed twice); the heap
    stays well formed and the resulting owner is known to it. *)
Theorem sharing_never_fails (h : heap) (this other : Buf.t) (offset len : Z) :
  heap_wf h -> owned h (Buf._alloc this) -> owned h (Buf._alloc other) ->
  (exists h', Buf.ctor_copy other h = Ok (other, h') /\ heap_wf h' /\
              owned h' (Buf._alloc other) /\ owned h' (Buf._alloc this)) /\
  (exists h', Buf.ctor_slice other offset len h
              = Ok (Buf.slice offset len other, h') /\ heap_wf h' /\
              owned h' (Buf._alloc other)) /\
  (exists h', Buf.assign this other h = Ok (other, h') /\ heap_wf h' /\
              owned h' (Buf._alloc other)) /\
  (exists h', Buf.dtor this h = Ok (tt, h') /\ heap_wf h').
Proof.
  intros Hwf Hthis Hother.
  assert (Hcopy : exists h2,
             sp_copy (Buf._alloc other) h = Ok (Buf._alloc other, h2) /\
             heap_wf h2 /\
             (forall sp, owned h sp -> owned h2 sp) /\
             (forall b, Buf._alloc other = Some b ->
                        exists c, counts h2 !! b = Some c /\ c <> 1)).
  { destruct (Buf._alloc other) as [b|] eqn:Hb; cbn in Hother |- *.
    - destruct Hother as [c Hc]. rewrite Hc.
      pose proof (wf_count_pos h Hwf b c Hc) as Hpos.
      eexists. split; [reflexivity|]. split.
      + eapply heap_wf_set_count; eauto. lia.
      + split.
        * intros [a'|]; cbn; [|trivial]. intros [c' Hc'].
          destruct (decide (b = a')) as [<-|Hne].
          -- rewrite lookup_insert_eq. eauto.
          -- rewrite lookup_insert_ne by assumption. eauto.
        * intros b' Hb'. inversion Hb'; subst b'. exists (c + 1).
          cbn. rewrite lookup_insert_eq. split; [reflexivity|lia].
    - exists h. split; [reflexivity|]. split; [exact Hwf|].
      split; [auto|]. intros b' Hb'. discriminate. }
  destruct Hcopy as (h2 & Hcopy & Hwf2 & Hkeep & Htwo).
  assert (Hinit : forall former, Buf._alloc former = None ->
            Buf.init former other h = Ok (other, h2)).
  { intros former Hformer. rewrite init_unfold, Hcopy, Hformer. cbn.
    now destruct other. }
  split; [|split; [|split]].
  - exists h2. split; [now apply Hinit|]. split; [exact Hwf2|]. split; auto.
  - exists h2. unfold Buf.ctor_slice, bind.
    rewrite (Hinit Buf.ctor_default eq_refl). split; [reflexivity|].
    split; [exact Hwf2|]. auto.
  - destruct (sp_release_owned h2 (Buf._alloc this) Hwf2 (Hkeep _ Hthis))
      as (h1 & Hrel & Hwf1 & _ & _ & Hstay).
    exists h1. split.
    + unfold Buf.assign. rewrite init_unfold, Hcopy, Hrel. now destruct other.
    + split; [exact Hwf1|].
      destruct (Buf._alloc other) as [b|] eqn:Hb; cbn; [|trivial].
      destruct (Htwo b eq_refl) as (c & Hc & Hne).
      apply (Hstay b c Hc). now right.
  - destruct (sp_release_owned h (Buf._alloc this) Hwf Hthis)
      as (h1 & Hrel & Hwf1 & _).
    exists h1. split; [exact Hrel|exact Hwf1].
Qed.

Lemma example_heap_wf : heap_wf example_heap.
Proof.
  exact (proj1 (heap_wf_ctor_len empty_heap 3 empty_heap_wf ltac:(lia))).
Qed.

Lemma sharing_never_fails_witness :
  exists h', Buf.assign (Buf.ctor_wrap 64 2) example_buf example_heap
             = Ok (example_buf, h') /\ heap_wf h'.
Proof.
  destruct (sharing_never_fails example_heap (Buf.ctor_wrap 64 2) example_buf 0 0)
    as (_ & _ & (h' & Hrun & Hwf & _) & _).
  - exact example_heap_wf.
  - exact I.
  - cbn. rewrite lookup_insert_eq. eauto.
  - exists h'. split; assumption.
Defined.

Lemma heap_eq (h h' : heap) :
  mem h = mem h' -> arrays h = arrays h' -> brk h = brk h' ->
  objs h = objs h' -> counts h = counts h' -> h = h'.
Proof. destruct h, h'. cbn. intros. now subst. Qed.

(** Taking a reference and dropping it again leaves the heap as it
    was. *)
Lemma sp_copy_release (h : heap) (sp : shared_ptr) :
  heap_wf h -> owned h sp ->
  exists h1, sp_copy sp h = Ok (sp, h1) /\ sp_release sp h1 = Ok (tt, h) /\
             forall a c, sp = Some a -> counts h !! a = Some c ->
                         counts h1 !! a = Some (c + 1).
Proof.
  intros Hwf. destruct sp as [a|]; cbn [owned].
  - intros [c Hc]. pose proof (wf_count_pos h Hwf a c Hc) as Hpos.
    exists (set_counts <[a := c + 1]> h). cbn. rewrite Hc, lookup_insert_eq.
    split; [reflexivity|]. split.
    + destruct (Z.eqb_spec (c + 1) 1) as [?|_]; [lia|].
      f_equal. f_equal. apply heap_eq; try reflexivity. cbn.
      rewrite insert_insert_eq. replace (c + 1 - 1) with c by lia.
      now apply insert_id.
    + intros a' c' Ha' Hc'. inversion Ha'; subst a'.
      rewrite lookup_insert_eq. congruence.
  - intros _. exists h. split; [reflexivity|]. split; [reflexivity|].
    intros; discriminate.
Qed.

(** X9: Copy-constructing a buffer and destroying the copy leaves the heap
    exactly as it was; while the copy lives, the source is not the sole
    owner. *)
Theorem copy_then_destroy (h : heap) (other : Buf.t) :
  heap_wf h -> owned h (Buf._alloc other) ->
  exists h1,
    Buf.ctor_copy other h = Ok (other, h1) /\
    Buf.unique_alloc other h1 = false /\
    Buf.dtor other h1 = Ok (tt, h).
Proof.
  intros Hwf Hown.
  destruct (sp_copy_release h _ Hwf Hown) as (h1 & Hcopy & Hrel & Hcnt).
  exists h1. split; [|split].
  - unfold Buf.ctor_copy. rewrite init_unfold, Hcopy. cbn. now destruct other.
  - unfold Buf.unique_alloc, sp_unique, use_count.
    destruct (Buf._alloc other) as [a|] eqn:Ha; [|reflexivity].
    destruct Hown as [c Hc]. rewrite (Hcnt a c eq_refl Hc). cbn.
    pose proof (wf_count_pos h Hwf a c Hc).
    destruct (Z.eqb_spec (c + 1) 1); [lia|reflexivity].
  - exact Hrel.
Qed.

Lemma copy_then_destroy_witness :
  exists h1,
    Buf.ctor_copy example_buf example_heap = Ok (example_buf, h1) /\
    Buf.dtor example_buf h1 = Ok (tt, example_heap).
Proof.
  destruct (copy_then_destroy example_heap example_buf) as (h1 & Hc & _ & Hd).
  - exact example_heap_wf.
  - cbn. rewrite lookup_insert_eq. eauto.
  - exists h1. split; assumption.
Defined.

(** X10: Assigning a buffer to itself changes neither the buffer nor the
    heap. *)
Theorem self_assignment (h : heap) (this : Buf.t) :
  heap_wf h -> owned h (Buf._alloc this) ->
  Buf.assign this this h = Ok (this, h).
Proof.
  intros Hwf Hown.
  destruct (sp_copy_release h _ Hwf Hown) as (h1 & Hcopy & Hrel & _).
  unfold Buf.assign. rewrite init_unfold, Hcopy, Hrel. now destruct this.
Qed.

Lemma self_assignment_witness :
  Buf.assign example_buf example_buf example_heap = Ok (example_buf, example_heap).
Proof.
  apply (self_assignment example_heap example_buf).
  - exact example_heap_wf.
  - cbn. rewrite lookup_insert_eq. eauto.
Defined.

(** ** Lifetime of the allocation *)

(** X11: The array lives as long as one buffer holds it.  Of a fresh buffer
    and its copy, destroying the first leaves the array live and the
    copy sole owner; destroying the second frees the array, and the
    arrays, [Alloc] objects and control blocks of the heap are then
    those from before the construction. *)
Theorem freed_with_last_owner (h : heap) (len : Z) :
  heap_wf h -> 0 <= len ->
  exists this h1 copy h2 h3 h4,
    Buf.ctor_len len h = Ok (this, h1) /\
    Buf.ctor_copy this h1 = Ok (copy, h2) /\
    Buf.dtor this h2 = Ok (tt, h3) /\
    arrays h3 !! Buf.data copy = Some len /\
    Buf.unique_alloc copy h3 = true /\
    Buf.dtor copy h3 = Ok (tt, h4) /\
    arrays h4 = arrays h /\ objs h4 = objs h /\ counts h4 = counts h /\
    mem h4 = mem h.
Proof.
  intros Hwf Hlen. pose proof (ctor_len_spec h len Hlen) as Hctor.
  cbv zeta in Hctor. set (a := fresh_loc h) in *.
  pose proof (fresh_loc_counts h) as Hfc. pose proof (fresh_loc_objs h) as Hfo.
  fold a in Hfc, Hfo.
  assert (Hfa : arrays h !! brk h = None).
  { destruct (arrays h !! brk h) as [n|] eqn:Hn; [|reflexivity].
    apply (wf_arrays h Hwf) in Hn. lia. }
  pose proof (wf_brk h Hwf) as Hbrk.
  eexists _, _, _, _, _, _. split; [exact Hctor|].
  split.
  { apply (ctor_copy_owning _ _ a 1); [reflexivity|]. cbn. apply lookup_insert_eq. }
  split.
  { unfold Buf.dtor, sp_release. cbn. rewrite lookup_insert_eq. cbn. reflexivity. }
  split; [cbn; apply lookup_insert_eq|].
  split.
  { unfold Buf.unique_alloc, sp_unique, use_count. cbn.
    now rewrite lookup_insert_eq. }
  split.
  { unfold Buf.dtor, sp_release. cbn. rewrite lookup_insert_eq. cbn.
    unfold Alloc_delete, Alloc_dtor, bind, modify, deref. cbn.
    rewrite lookup_insert_eq. cbn. unfold delete_array. cbn.
    destruct (Z.eqb_spec (brk h) NULL) as [Hn|_]; [unfold NULL in Hn; lia|].
    rewrite lookup_insert_eq. reflexivity. }
  cbn. split; [now rewrite delete_insert_eq, delete_id|].
  split; [now rewrite delete_insert_eq, delete_id|].
  split; [|reflexivity].
  now rewrite !delete_insert_eq, delete_id.
Qed.

Lemma freed_with_last_owner_witness :
  exists this h1 copy h2 h3 h4,
    Buf.ctor_len 3 empty_heap = Ok (this, h1) /\
    Buf.ctor_copy this h1 = Ok (copy, h2) /\
    Buf.dtor this h2 = Ok (tt, h3) /\
    Buf.dtor copy h3 = Ok (tt, h4) /\
    arrays h4 = arrays empty_heap.
Proof.
  destruct (freed_with_last_owner empty_heap 3 empty_heap_wf)
    as (this & h1 & copy & h2 & h3 & h4 & H1 & H2 & H3 & _ & _ & H4 & H5 & _).
  - lia.
  - exists this, h1, copy, h2, h3, h4.
    split; [exact H1|]. split; [exact H2|]. split; [exact H3|].
    split; [exact H4|exact H5].
Defined.

(** X12: Assignment lets go of what the assignee held: when it was the sole
    owner of another allocation, that array is freed and its [Alloc]
    and control block are gone. *)
Theorem assign_releases_former (h : heap) (this other : Buf.t)
    (a : loc) (p : ptr) (n : Z) :
  heap_wf h -> Buf._alloc this = Some a -> counts h !! a = Some 1 ->
  objs h !! a = Some (Alloc.mk p n) -> p <> NULL ->
  Buf._alloc other <> Some a -> owned h (Buf._alloc other) ->
  exists h',
    Buf.assign this other h = Ok (other, h') /\
    arrays h' !! p = None /\ objs h' !! a = None /\ counts h' !! a = None /\
    mem h' = mem h.
Proof.
  intros Hwf Ha Hc Hobj Hp Hother Hown.
  assert (Hcopy : exists h2,
             sp_copy (Buf._alloc other) h = Ok (Buf._alloc other, h2) /\
             heap_wf h2 /\ counts h2 !! a = Some 1 /\
             objs h2 = objs h /\ mem h2 = mem h).
  { destruct (Buf._alloc other) as [b|] eqn:Hb; cbn in Hown |- *.
    - destruct Hown as [cb Hcb]. rewrite Hcb.
      pose proof (wf_count_pos h Hwf b cb Hcb).
      eexists. split; [reflexivity|]. split.
      + eapply heap_wf_set_count; eauto. lia.
      + cbn. rewrite lookup_insert_ne by congruence. auto.
    - exists h. auto. }
  destruct Hcopy as (h2 & Hcopy & Hwf2 & Hc2 & Hobjs2 & Hmem2).
  assert (Hobj2 : objs h2 !! a = Some (Alloc.mk p n)) by now rewrite Hobjs2.
  destruct (sp_release_wf h2 a 1 _ Hwf2 Hc2 Hobj2)
    as (h' & Hrel & _ & Hmem & _ & _ & Hlast).
  exists h'. split.
  - unfold Buf.assign. rewrite init_unfold, Hcopy, Ha, Hrel. now destruct other.
  - rewrite (Hlast eq_refl). cbn.
    destruct (Z.eqb_spec p NULL) as [?|_]; [contradiction|].
    rewrite !lookup_delete_eq. repeat split; try reflexivity. exact Hmem2.
Qed.

Lemma assign_releases_former_witness :
  exists h',
    Buf.assign example_buf (Buf.ctor_wrap 64 2) example_heap
    = Ok (Buf.ctor_wrap 64 2, h') /\
    arrays h' !! 1 = None.
Proof.
  destruct (assign_releases_former example_heap example_buf (Buf.ctor_wrap 64 2)
              1%positive 1 3) as (h' & Hrun & Harr & _).
  - exact example_heap_wf.
  - reflexivity.
  - reflexivity.
  - reflexivity.
  - discriminate.
  - discriminate.
  - exact I.
  - exists h'. split; assumption.
Defined.

(** ** Detaching *)

(** X13: [detach_alloc] hands the array over.  For the sole owner of an
    [Alloc] holding array [p]: the call returns [p]; destroying the
    buffer afterwards succeeds and frees nothing, so [p] is still a live
    array with its bytes, and no [Alloc] of the heap holds it. *)
Theorem detach_then_destroy (h : heap) (this : Buf.t) (a : loc)
    (p : ptr) (n : Z) :
  heap_wf h -> Buf._alloc this = Some a -> counts h !! a = Some 1 ->
  objs h !! a = Some (Alloc.mk p n) -> p <> NULL ->
  exists h1 h2,
    Buf.detach_alloc this h = Ok ((p, this), h1) /\
    Buf.dtor this h1 = Ok (tt, h2) /\
    heap_wf h2 /\
    arrays h2 !! p = Some n /\ mem h2 = mem h /\
    objs h2 !! a = None /\ counts h2 !! a = None /\
    (forall a' o', objs h2 !! a' = Some o' -> Alloc._data o' <> p).
Proof.
  intros Hwf Ha Hc Hobj Hp.
  set (h1 := set_objs <[a := Alloc.mk NULL 0]> h).
  assert (Hwf1 : heap_wf h1) by (eapply heap_wf_detach; eauto).
  assert (Hobj1 : objs h1 !! a = Some (Alloc.mk NULL 0))
    by (cbn; apply lookup_insert_eq).
  destruct (sp_release_wf h1 a 1 _ Hwf1 Hc Hobj1)
    as (h2 & Hrel & Hwf2 & _ & _ & _ & Hlast).
  specialize (Hlast eq_refl). cbn in Hlast.
  exists h1, h2. split.
  { unfold Buf.detach_alloc, bind. rewrite Ha. cbn.
    unfold Alloc_detach, bind. now rewrite (deref_live _ _ _ Hobj). }
  split; [unfold Buf.dtor; now rewrite Ha|].
  split; [exact Hwf2|]. rewrite Hlast. cbn.
  split.
  { destruct (wf_obj h Hwf a _ Hobj) as [Hn|Harr]; [contradiction|exact Harr]. }
  split; [reflexivity|]. rewrite !lookup_delete_eq.
  split; [reflexivity|]. split; [reflexivity|].
  intros a' o' Ho' Heq. apply lookup_delete_Some in Ho'. destruct Ho' as [Hne Ho'].
  rewrite lookup_insert_ne in Ho' by assumption.
  apply Hne. eapply (wf_own h Hwf a a'); eauto; cbn; congruence.
Qed.

Lemma detach_then_destroy_witness :
  exists h1 h2,
    Buf.detach_alloc example_buf example_heap = Ok ((1, example_buf), h1) /\
    Buf.dtor example_buf h1 = Ok (tt, h2) /\
    arrays h2 !! 1 = Some 3.
Proof.
  destruct (detach_then_destroy example_heap example_buf 1%positive 1 3)
    as (h1 & h2 & Hd & Hdtor & _ & Harr & _).
  - exact example_heap_wf.
  - reflexivity.
  - reflexivity.
  - reflexivity.
  - discriminate.
  - exists h1, h2. split; [exact Hd|]. split; [exact Hdtor|exact Harr].
Defined.

(** X14: After a detach through one buffer, every buffer sharing the [Alloc]
    sees it empty: [reset] gives the null, zero-length view and a second
    [detach_alloc] returns null; the sharing buffer's own [_data] and
    [_len] still describe the detached bytes. *)
Theorem detach_seen_by_sharers (h : heap) (this other : Buf.t) (a : loc)
    (o : Alloc.t) :
  Buf._alloc this = Some a -> Buf._alloc other = Some a ->
  objs h !! a = Some o ->
  exists h1,
    Buf.detach_alloc this h = Ok ((Alloc._data o, this), h1) /\
    Buf.reset other h1 = Ok (Buf.mk (Some a) NULL 0, h1) /\
    Buf.detach_alloc other h1 = Ok ((NULL, other), h1) /\
    Buf.unique_alloc other h1 = Buf.unique_alloc other h /\
    forall i, load (Buf.index other i) h1 = load (Buf.index other i) h.
Proof.
  intros Ha Hb Hobj. exists (set_objs <[a := Alloc.mk NULL 0]> h).
  assert (Hobj1 : objs (set_objs <[a := Alloc.mk NULL 0]> h) !! a
                  = Some (Alloc.mk NULL 0)) by (cbn; apply lookup_insert_eq).
  split.
  { unfold Buf.detach_alloc, bind. rewrite Ha. cbn.
    unfold Alloc_detach, bind. now rewrite (deref_live _ _ _ Hobj). }
  split; [exact (reset_owning _ _ _ _ Hb Hobj1)|].
  split.
  { unfold Buf.detach_alloc, bind. rewrite Hb. cbn.
    unfold Alloc_detach, bind. rewrite (deref_live _ _ _ Hobj1). cbn.
    unfold assign_obj, modify, ret. cbn. do 2 f_equal.
    apply heap_eq; try reflexivity. cbn. apply insert_insert_eq. }
  split; reflexivity.
Qed.

Lemma detach_seen_by_sharers_witness :
  exists h1,
    Buf.detach_alloc example_buf example_heap = Ok ((1, example_buf), h1) /\
    Buf.reset (Buf.slice 1 1 example_buf) h1
    = Ok (Buf.mk (Some 1%positive) NULL 0, h1).
Proof.
  destruct (detach_seen_by_sharers example_heap example_buf
              (Buf.slice 1 1 example_buf) 1%positive (Alloc.mk 1 3))
    as (h1 & Hd & Hreset & _).
  - reflexivity.
  - reflexivity.
  - reflexivity.
  - exists h1. split; assumption.
Defined.

(** ** Fresh buffers *)

Lemma in_block_false (dst n a : Z) :
  ~ (dst <= a < dst + n) -> in_block dst n a = false.
Proof.
  intros Ha. apply not_true_is_false. intros Hb. apply Ha, in_block_iff, Hb.
Qed.

(** X5: [Buf(len, fill)]: an owning buffer of [len] bytes, each equal to
    [fill], sole owner of its allocation; bytes outside the new array
    are as before. *)
Theorem ctor_fill_spec (h : heap) (len : Z) (fill : byte) :
  0 <= len -> Int.in_range len ->
  exists this h',
    Buf.ctor_fill len fill h = Ok (this, h') /\
    Buf.length this = len /\
    view this h' = replicate (Z.to_nat len) fill /\
    Buf.unique_alloc this h' = true /\
    arrays h' !! Buf.data this = Some len /\
    (forall a, ~ (Buf.data this <= a < Buf.data this + len) ->
               load a h' = load a h).
Proof.
  intros Hlen Hr. pose proof (ctor_len_spec h len Hlen) as Hctor.
  cbv zeta in Hctor. unfold Buf.ctor_fill, bind. rewrite Hctor.
  unfold memset, modify, ret. cbn [Buf._data Buf._len].
  rewrite (Int_to_size_t_id _ Hr Hlen).
  eexists _, _. split; [reflexivity|]. split; [reflexivity|].
  split.
  { apply list_eq. intros k.
    destruct (Z_lt_le_dec (Z.of_nat k) len) as [Hk|Hk].
    - rewrite view_lookup_nat by (cbn; lia).
      rewrite lookup_replicate_2 by lia. cbn. unfold memset_bytes.
      assert (Hb : in_block (brk h) len (brk h + Z.of_nat k) = true)
        by (apply in_block_iff; lia).
      now rewrite Hb.
    - rewrite view_lookup_None by (cbn; lia). symmetry.
      apply lookup_replicate_None. lia. }
  split.
  { unfold Buf.unique_alloc, sp_unique, use_count. cbn.
    now rewrite lookup_insert_eq. }
  split; [cbn; apply lookup_insert_eq|].
  intros a Ha. unfold load, Buf.data in *. cbn in *. unfold memset_bytes.
  now rewrite in_block_false.
Qed.

Lemma ctor_fill_spec_witness :
  exists this h',
    Buf.ctor_fill 2 xff empty_heap = Ok (this, h') /\
    view this h' = [xff; xff].
Proof.
  destruct (ctor_fill_spec empty_heap 2 xff) as (this & h' & Hrun & _ & Hv & _).
  - lia.
  - vm_compute. split; discriminate.
  - exists this, h'. split; [exact Hrun|exact Hv].
Defined.

(** X6: Two buffers constructed one after the other own different
    allocations and share no byte: a store through one leaves the view
    of the other as it was. *)
Theorem fresh_buffers_apart (h : heap) (n1 n2 : Z) :
  0 <= n1 -> 0 <= n2 ->
  exists b1 h1 b2 h2,
    Buf.ctor_len n1 h = Ok (b1, h1) /\
    Buf.ctor_len n2 h1 = Ok (b2, h2) /\
    Buf._alloc b1 <> Buf._alloc b2 /\
    (forall i j, 0 <= i < n1 -> 0 <= j < n2 ->
                 Buf.index b1 i <> Buf.index b2 j) /\
    (forall j v, 0 <= j < n2 ->
                 view b1 (store (Buf.index b2 j) v h2) = view b1 h2) /\
    (forall i v, 0 <= i < n1 ->
                 view b2 (store (Buf.index b1 i) v h2) = view b2 h2).
Proof.
  intros Hn1 Hn2. pose proof (ctor_len_spec h n1 Hn1) as H1. cbv zeta in H1.
  set (h1 := set_counts _ _) in H1.
  pose proof (ctor_len_spec h1 n2 Hn2) as H2. cbv zeta in H2.
  set (h2 := set_counts _ _) in H2.
  exists (Buf.mk (Some (fresh_loc h)) (brk h) n1), h1,
         (Buf.mk (Some (fresh_loc h1)) (brk h1) n2), h2.
  split; [exact H1|]. split; [exact H2|].
  assert (Hbrk : brk h1 = brk h + Z.max 1 n1) by reflexivity.
  split.
  { cbn. intros Heq. inversion Heq as [Heq'].
    pose proof (fresh_loc_counts h1) as Hf. rewrite <- Heq' in Hf.
    subst h1. cbn in Hf. now rewrite lookup_insert_eq in Hf. }
  assert (Happart : forall i j, 0 <= i < n1 -> 0 <= j < n2 ->
             brk h + i <> brk h1 + j) by (intros; rewrite Hbrk; lia).
  split; [exact Happart|]. split.
  - intros j v Hj. apply view_frame. intros i Hi. unfold store, Buf.index.
    cbn in Hi |- *.
    match goal with
    | |- context [Z.eqb ?x ?y] => destruct (Z.eqb_spec x y) as [Heq|_]
    end; [lia|reflexivity].
  - intros i v Hi. apply view_frame. intros j Hj. unfold store, Buf.index.
    cbn in Hj |- *.
    match goal with
    | |- context [Z.eqb ?x ?y] => destruct (Z.eqb_spec x y) as [Heq|_]
    end; [lia|reflexivity].
Qed.

Lemma fresh_buffers_apart_witness :
  exists b1 h1 b2 h2,
    Buf.ctor_len 3 empty_heap = Ok (b1, h1) /\
    Buf.ctor_len 2 h1 = Ok (b2, h2) /\
    Buf._alloc b1 <> Buf._alloc b2.
Proof.
  destruct (fresh_buffers_apart empty_heap 3 2)
    as (b1 & h1 & b2 & h2 & H1 & H2 & Hne & _); [lia|lia|].
  exists b1, h1, b2, h2. split; [exact H1|]. split; [exact H2|exact Hne].
Defined.

(** ** More on [Alloc] *)

(** X15: The copy constructor of [Alloc] is a deep copy: a new object with a
    new array of the same length holding the same bytes; the two arrays
    share no address, and the source is as before. *)
Theorem Alloc_copy_is_deep (h : heap) (other : loc) (p : ptr) (n : Z) :
  objs h !! other = Some (Alloc.mk p n) ->
  0 <= n -> Int.in_range n -> p + n <= brk h ->
  exists this h',
    Alloc_new_copy other h = Ok (this, h') /\
    this <> other /\
    objs h' !! this = Some (Alloc.mk (brk h) n) /\
    objs h' !! other = Some (Alloc.mk p n) /\
    arrays h' !! brk h = Some n /\
    (forall i, 0 <= i < n -> load (brk h + i) h' = load (p + i) h) /\
    (forall a, ~ (brk h <= a < brk h + n) -> load a h' = load a h) /\
    (forall i j, 0 <= i < n -> 0 <= j < n -> brk h + i <> p + j).
Proof.
  intros Hobj Hn Hr Hp.
  pose proof (fresh_loc_objs h) as Hfresh.
  assert (Hne : fresh_loc h <> other) by congruence.
  unfold Alloc_new_copy, bind. rewrite (deref_live _ _ _ Hobj). cbn.
  unfold new_array. destruct (Z.ltb_spec n 0) as [?|_]; [lia|]. cbn.
  unfold memcpy, modify, ret. cbn. rewrite (Int_to_size_t_id _ Hr Hn).
  change (fresh_loc (set_brk _ _)) with (fresh_loc h).
  eexists _, _. split; [reflexivity|]. split; [exact Hne|]. cbn.
  split; [apply lookup_insert_eq|].
  split; [now rewrite lookup_insert_ne|].
  split; [apply lookup_insert_eq|].
  split; [|split].
  - intros i Hi. unfold load. cbn. now apply memcpy_bytes_inside.
  - intros a Ha. unfold load. cbn. now apply memcpy_bytes_outside.
  - intros i j Hi Hj. lia.
Qed.

Lemma Alloc_copy_is_deep_witness :
  exists this h',
    Alloc_new_copy 1%positive hex_example_heap = Ok (this, h') /\
    this <> 1%positive /\
    load (brk hex_example_heap + 1) h' = xff.
Proof.
  destruct (Alloc_copy_is_deep hex_example_heap 1%positive 1 3)
    as (this & h' & Hrun & Hne & _ & _ & _ & Hbytes & _).
  - reflexivity.
  - lia.
  - vm_compute. split; discriminate.
  - vm_compute. discriminate.
  - exists this, h'. split; [exact Hrun|]. split; [exact Hne|].
    rewrite Hbytes by lia. reflexivity.
Defined.

(** X16: An [Alloc] made around existing memory allocates nothing, but its
    destructor runs [delete[]] on that memory all the same: a live array
    is freed, a null pointer is left alone, and for any other pointer
    the destruction is undefined. *)
Theorem Alloc_wrap_then_delete (h : heap) (data : ptr) (len : Z) :
  exists this h1,
    Alloc_new_wrap data len h = Ok (this, h1) /\
    objs h1 !! this = Some (Alloc.mk data len) /\
    mem h1 = mem h /\ arrays h1 = arrays h /\ brk h1 = brk h /\
    (data = NULL -> Alloc_delete this h1 = Ok (tt, h)) /\
    (data <> NULL -> arrays h !! data = None ->
     Alloc_delete this h1 = Err UndefinedBehavior) /\
    (data <> NULL -> is_Some (arrays h !! data) ->
     exists h2, Alloc_delete this h1 = Ok (tt, h2) /\
                arrays h2 = delete data (arrays h)).
Proof.
  pose proof (fresh_loc_objs h) as Hfresh.
  unfold Alloc_new_wrap, bind, get_heap, assign_obj, modify, ret.
  eexists _, _. split; [reflexivity|]. cbn.
  split; [apply lookup_insert_eq|]. do 3 (split; [reflexivity|]).
  unfold Alloc_delete, Alloc_dtor, bind, modify, deref. cbn.
  rewrite lookup_insert_eq. cbn. unfold delete_array. cbn.
  split; [|split].
  - intros ->. cbn. do 2 f_equal. apply heap_eq; try reflexivity. cbn.
    now rewrite delete_insert_eq, delete_id.
  - intros Hnn Hnone. destruct (Z.eqb_spec data NULL); [contradiction|].
    now rewrite Hnone.
  - intros Hnn [sz Hsz]. destruct (Z.eqb_spec data NULL); [contradiction|].
    rewrite Hsz. eexists. split; reflexivity.
Qed.

(** ** More on [same] and [hex] *)

(** What [same] decides, for a view length that is a non-negative
    [int]. *)
Lemma same_bytes_iff (a b : Buf.t) (h : heap) :
  Int.in_range (Buf.length a) -> 0 <= Buf.length a ->
  Buf.same a b h = true <->
  Buf.length a = Buf.length b /\ view a h = view b h.
Proof.
  intros Hrange Hpos. rewrite view_eq_iff.
  unfold Buf.same, Buf.length, Buf.index, load, memcmp in *.
  rewrite (Int_to_size_t_id _ Hrange Hpos).
  rewrite andb_true_iff, Z.eqb_eq, Z.eqb_eq. split.
  - intros [Hlen Hcmp]. split; [exact Hlen|]. split; [now rewrite Hlen|].
    intros i Hi. symmetry in Hcmp.
    pose proof (proj1 (memcmp_from_zero_iff _ _ _ _) Hcmp (Z.to_nat i)) as Hk.
    rewrite Z2Nat.id in Hk by lia. apply Hk. lia.
  - intros (Hlen & _ & Hall). split; [exact Hlen|]. symmetry.
    apply memcmp_from_zero_iff. intros k Hk. apply Hall. lia.
Qed.

(** X17: [same] is transitive, on all buffers. *)
Theorem same_trans (a b c : Buf.t) (h : heap) :
  Buf.same a b h = true -> Buf.same b c h = true -> Buf.same a c h = true.
Proof.
  unfold Buf.same, memcmp. rewrite !andb_true_iff, !Z.eqb_eq.
  intros [Hab Hcmp1] [Hbc Hcmp2]. rewrite <- Hab in Hcmp2.
  split; [congruence|]. symmetry. symmetry in Hcmp1, Hcmp2.
  apply memcmp_from_zero_iff. intros k Hk.
  rewrite (proj1 (memcmp_from_zero_iff _ _ _ _) Hcmp1 k Hk).
  exact (proj1 (memcmp_from_zero_iff _ _ _ _) Hcmp2 k Hk).
Qed.

Lemma same_trans_witness :
  Buf.same (Buf.ctor_wrap 1 3) (Buf.slice 0 3 example_buf) example_heap = true.
Proof.
  apply (same_trans (Buf.ctor_wrap 1 3) example_buf
           (Buf.slice 0 3 example_buf) example_heap); reflexivity.
Defined.

(** X18: Two buffers of valid length compare [same] exactly when [hex]
    renders them alike. *)
Theorem same_iff_hex (a b : Buf.t) (h : heap) :
  Int.in_range (Buf.length a) -> 0 <= Buf.length a -> 0 <= Buf.length b ->
  Buf.same a b h = true <-> Buf.hex a h = Buf.hex b h.
Proof.
  intros Hrange Ha Hb. rewrite (same_bytes_iff a b h Hrange Ha), !hex_view.
  split.
  - intros [_ ->]. reflexivity.
  - intros Hhex.
    assert (Hv : view a h = view b h).
    { apply (f_equal unhex) in Hhex. rewrite !unhex_hex_of_bytes in Hhex.
      congruence. }
    split; [|exact Hv].
    apply (f_equal List.length) in Hv. rewrite !view_length in Hv. lia.
Qed.

Lemma same_iff_hex_witness :
  Buf.same example_buf (Buf.ctor_wrap 1 3) hex_example_heap = true.
Proof.
  apply (same_iff_hex example_buf (Buf.ctor_wrap 1 3) hex_example_heap).
  - vm_compute. split; discriminate.
  - vm_compute. discriminate.
  - vm_compute. discriminate.
  - reflexivity.
Defined.

Lemma Alloc_wrap_then_delete_witness :
  exists this h1,
    Alloc_new_wrap 64 2 empty_heap = Ok (this, h1) /\
    Alloc_delete this h1 = Err UndefinedBehavior.
Proof.
  destruct (Alloc_wrap_then_delete empty_heap 64 2)
    as (this & h1 & Hrun & _ & _ & _ & _ & _ & Hub & _).
  exists this, h1. split; [exact Hrun|]. apply Hub; [discriminate|reflexivity].
Defined.

(** ** More on the concatenating constructor *)

Lemma hex_of_bytes_app (l1 l2 : list byte) :
  hex_of_bytes (l1 ++ l2)
  = String.append (hex_of_bytes l1) (hex_of_bytes l2).
Proof.
  induction l1 as [|b l1 IH]; [reflexivity|].
  cbn [app hex_of_bytes foldr]. fold (hex_of_bytes (l1 ++ l2)).
  fold (hex_of_bytes l1). now rewrite IH, string_append_assoc.
Qed.

Lemma hex_source_bytes (srcs : list Buf.t) (h : heap) :
  hex_of_bytes (source_bytes srcs h)
  = foldr (fun s acc => String.append (Buf.hex s h) acc) EmptyString srcs.
Proof.
  induction srcs as [|s srcs IH]; [reflexivity|].
  unfold source_bytes in *. cbn [fmap list_fmap concat foldr].
  now rewrite hex_of_bytes_app, IH, hex_view.
Qed.

(** The constructor on sources that hold enough bytes: the buffer, the
    heap and what the construction touched. *)
Lemma ctor_concat_ok (h : heap) (len : Z) (srcs : list Buf.t) :
  0 <= len -> Int.in_range len -> Forall (valid_source h) srcs ->
  len <= total_length srcs ->
  exists h',
    Buf.ctor_concat len srcs h
    = Ok (Buf.mk (Some (fresh_loc h)) (brk h) len, h') /\
    counts h' = <[fresh_loc h := 1]> (counts h) /\
    (forall a, ~ (brk h <= a < brk h + len) -> mem h' a = mem h a) /\
    view (Buf.mk (Some (fresh_loc h)) (brk h) len) h'
    = take (Z.to_nat len) (source_bytes srcs h).
Proof.
  intros Hlen Hr Hsrcs Hle.
  pose proof (ctor_len_spec h len Hlen) as Hctor. cbv zeta in Hctor.
  set (a := fresh_loc h) in *. set (h1 := set_counts _ _) in Hctor.
  destruct (concat_loop_copies h srcs Hsrcs (brk h) len h1 Hlen Hr Hle)
    as (h' & Hrun & _ & _ & _ & Hcnt & Hout & Hin).
  { eapply Forall_impl; [exact Hsrcs|]. cbn. intros s (_ & _ & Hs). now left. }
  exists h'. unfold Buf.ctor_concat, bind. rewrite Hctor. cbn [Buf._data].
  rewrite Hrun. split; [reflexivity|]. split; [exact Hcnt|].
  split; [exact Hout|].
  assert (Hsame : source_bytes srcs h1 = source_bytes srcs h).
  { apply source_bytes_frame. apply Forall_forall. intros; reflexivity. }
  rewrite Hsame in Hin. apply list_eq. intros k.
  destruct (Z_lt_le_dec (Z.of_nat k) len) as [Hlt|Hge].
  - rewrite lookup_take_lt by lia.
    specialize (Hin (Z.of_nat k) ltac:(lia)). rewrite Nat2Z.id in Hin.
    rewrite Hin. now rewrite view_lookup_nat by (cbn; lia).
  - rewrite lookup_take_ge by lia. apply view_lookup_None. cbn. lia.
Qed.

(** X19: The concatenation is a copy ("copyful concat"): the new buffer is
    the sole owner of its allocation, the construction leaves the bytes
    of every source as they were, and a later store into the new buffer
    changes no source. *)
Theorem concat_is_copy (h : heap) (len : Z) (srcs : list Buf.t) :
  0 <= len -> Int.in_range len -> Forall (valid_source h) srcs ->
  len <= total_length srcs ->
  exists this h',
    Buf.ctor_concat len srcs h = Ok (this, h') /\
    Buf.unique_alloc this h' = true /\
    Forall (fun s => view s h' = view s h) srcs /\
    Forall (fun s => forall i v, 0 <= i < len ->
              view s (store (Buf.index this i) v h') = view s h') srcs.
Proof.
  intros Hlen Hr Hsrcs Hle.
  destruct (ctor_concat_ok h len srcs Hlen Hr Hsrcs Hle)
    as (h' & Hrun & Hcnt & Hout & _).
  eexists _, h'. split; [exact Hrun|]. split.
  { unfold Buf.unique_alloc, sp_unique, use_count. cbn.
    now rewrite Hcnt, lookup_insert_eq. }
  split.
  - eapply Forall_impl; [exact Hsrcs|]. cbn. intros s (Hs0 & _ & Hs).
    apply view_frame. intros i Hi. apply Hout. lia.
  - eapply Forall_impl; [exact Hsrcs|]. cbn. intros s (Hs0 & _ & Hs) i v Hi.
    apply view_frame. intros j Hj. unfold store, Buf.index. cbn.
    match goal with
    | |- context [Z.eqb ?x ?y] => destruct (Z.eqb_spec x y) as [Heq|_]
    end; [lia|reflexivity].
Qed.

Lemma concat_is_copy_witness :
  exists this h',
    Buf.ctor_concat 3 concat_srcs concat_heap = Ok (this, h') /\
    Buf.unique_alloc this h' = true.
Proof.
  destruct (concat_is_copy concat_heap 3 concat_srcs)
    as (this & h' & Hrun & Hu & _).
  - lia.
  - vm_compute. split; discriminate.
  - repeat constructor; vm_compute; discriminate.
  - vm_compute. discriminate.
  - exists this, h'. split; assumption.
Defined.

(** X20: When the declared length is the total of the sources, [hex] of the
    concatenation is the [hex] strings of the sources, one after the
    other. *)
Theorem concat_hex (h : heap) (srcs : list Buf.t) :
  Int.in_range (total_length srcs) -> Forall (valid_source h) srcs ->
  exists this h',
    Buf.ctor_concat (total_length srcs) srcs h = Ok (this, h') /\
    Buf.hex this h'
    = foldr (fun s acc => String.append (Buf.hex s h) acc) EmptyString srcs.
Proof.
  intros Hr Hsrcs. pose proof (total_length_nonneg h srcs Hsrcs) as Hlen.
  destruct (ctor_concat_ok h _ srcs Hlen Hr Hsrcs (Z.le_refl _))
    as (h' & Hrun & _ & _ & Hview).
  eexists _, h'. split; [exact Hrun|].
  rewrite hex_view, Hview, take_ge.
  - apply hex_source_bytes.
  - rewrite (source_bytes_length h srcs h Hsrcs). lia.
Qed.

Lemma concat_hex_witness :
  exists this h',
    Buf.ctor_concat 3 concat_srcs concat_heap = Ok (this, h') /\
    Buf.hex this h' = "010203"%string.
Proof.
  destruct (concat_hex concat_heap concat_srcs) as (this & h' & Hrun & Hhex).
  - vm_compute. split; discriminate.
  - repeat constructor; vm_compute; discriminate.
  - exists this, h'. split; [exact Hrun|]. rewrite Hhex. reflexivity.
Defined.

(** X21: Concatenating one source with its own length makes a buffer that
    compares [same] as the source and shares no byte with it. *)
Theorem concat_one_same (h : heap) (src : Buf.t) :
  valid_source h src ->
  exists this h',
    Buf.ctor_concat (Buf.length src) [src] h = Ok (this, h') /\
    Buf.same this src h' = true /\
    view this h' = view src h /\
    forall i j, 0 <= i < Buf.length src -> 0 <= j < Buf.length src ->
                Buf.index this i <> Buf.index src j.
Proof.
  intros Hsrc. pose proof Hsrc as (Hpos & Hr & Hbelow).
  assert (Hsrcs : Forall (valid_source h) [src]) by (constructor; auto).
  assert (Htot : total_length [src] = Buf.length src).
  { rewrite total_length_cons. unfold total_length. cbn. lia. }
  destruct (ctor_concat_ok h (Buf.length src) [src] Hpos Hr Hsrcs
              ltac:(rewrite Htot; lia)) as (h' & Hrun & _ & Hout & Hview).
  assert (Hv : view (Buf.mk (Some (fresh_loc h)) (brk h) (Buf.length src)) h'
               = view src h).
  { rewrite Hview. unfold source_bytes. cbn. rewrite app_nil_r.
    apply take_ge. rewrite view_length. lia. }
  assert (Hkeep : view src h' = view src h).
  { apply view_frame. intros i Hi. apply Hout. lia. }
  eexists _, h'. split; [exact Hrun|]. split; [|split; [exact Hv|]].
  - apply same_bytes_iff; cbn; try assumption.
    split; [reflexivity|]. now rewrite Hv, Hkeep.
  - intros i j Hi Hj. unfold Buf.index, Buf.data in *. cbn. lia.
Qed.

Lemma concat_one_same_witness :
  exists this h',
    Buf.ctor_concat 2 [Buf.ctor_wrap 16 2] concat_heap = Ok (this, h') /\
    Buf.same this (Buf.ctor_wrap 16 2) h' = true.
Proof.
  destruct (concat_one_same concat_heap (Buf.ctor_wrap 16 2))
    as (this & h' & Hrun & Hsame & _).
  - repeat split; vm_compute; discriminate.
  - exists this, h'. split; assumption.
Defined.

(** ** Round trips and edge cases *)

(** X22: On a fresh buffer, [reset] undoes any run of [slice] calls: it gives
    back the buffer as constructed. *)
Theorem reset_restores_fresh (h : heap) (len : Z) (slices : list (Z * Z)) :
  0 <= len ->
  exists this h1,
    Buf.ctor_len len h = Ok (this, h1) /\
    Buf.reset (slice_all slices this) h1 = Ok (this, h1).
Proof.
  intros Hlen. pose proof (ctor_len_spec h len Hlen) as Hctor.
  cbv zeta in Hctor. eexists _, _. split; [exact Hctor|].
  rewrite (reset_owning _ _ (fresh_loc h) (Alloc.mk (brk h) len)).
  - reflexivity.
  - rewrite slices_alloc. reflexivity.
  - cbn. apply lookup_insert_eq.
Qed.

Lemma reset_restores_fresh_witness :
  exists this h1,
    Buf.ctor_len 3 empty_heap = Ok (this, h1) /\
    Buf.reset (slice_all [(2, 1); (0, 0)] this) h1 = Ok (this, h1).
Proof. apply (reset_restores_fresh empty_heap 3 [(2, 1); (0, 0)]). lia. Defined.

(** X23: Buffers of length 0 hold no bytes: they compare [same] whatever
    their data pointers, and [hex] gives the empty string. *)
Theorem empty_buffers (a b : Buf.t) (h : heap) :
  Buf.length a = 0 -> Buf.length b = 0 ->
  Buf.same a b h = true /\ view a h = [] /\ Buf.hex a h = EmptyString.
Proof.
  unfold Buf.length. intros Ha Hb.
  assert (Hv : view a h = []) by (unfold view, Buf.length; now rewrite Ha).
  split; [|split; [exact Hv|]].
  - unfold Buf.same, memcmp. now rewrite Ha, Hb.
  - now rewrite hex_view, Hv.
Qed.

Lemma empty_buffers_witness :
  Buf.same Buf.ctor_default (Buf.slice 3 0 example_buf) example_heap = true.
Proof.
  apply (empty_buffers Buf.ctor_default (Buf.slice 3 0 example_buf) example_heap);
    reflexivity.
Defined.

(** A buffer around external memory has no [Alloc]: [reset] and
    [detach_alloc] dereference a null pointer; copying it, slicing it
    and destroying it leave the heap as it is, and the copy is a
    borrowing buffer too. *)
Theorem borrowing_buffer (h : heap) (data : ptr) (len offset n : Z) :
  let this := Buf.ctor_wrap data len in
  Buf.reset this h = Err UndefinedBehavior /\
  Buf.detach_alloc this h = Err UndefinedBehavior /\
  Buf.ctor_copy this h = Ok (this, h) /\
  Buf.ctor_slice this offset n h = Ok (Buf.slice offset n this, h) /\
  Buf._alloc (Buf.slice offset n this) = None /\
  Buf.dtor this h = Ok (tt, h).
Proof. cbv zeta. repeat split. Qed.
